(** * Gesture tracker of [src/actions/pointer.ts]

    A shallow embedding of the pointer/gesture tracker: the closure state of
    [pointer(element, options)], its event handlers, the dispatcher, the
    subscription set and the pure helpers [snapOrigin], [getEventType],
    [getPointerMode] and [getPointerDistance].

    Numbers.  In the tracker a JavaScript [number] is modelled as an exact
    rational ([Q]): the arithmetic of the tracker is [+], [-], [*], [/],
    [Math.abs] and comparisons.  Rounding, [NaN] and the infinities of IEEE
    doubles are outside that model; a division by zero follows [Qdiv] (it
    yields 0).  [Math.sqrt] is kept symbolic (type [Dist]) and its two
    comparisons are decided exactly; lemmas [dist_gt_spec] and
    [dist_lt_spec] relate them to the square root on the real numbers.

    Where the difference to doubles decides, the properties say so: a
    property that needs a client position that is a number carries a
    hypothesis on [deltaScale] or on the magnitudes ([ordinary]), and the
    drag band of two contacts is stated on the distance as the code computes
    it, with [getPointerDistance] and [getPointerMode] given a second time
    on binary64 numbers in module [Double]. *)

From Stdlib Require Import List String ZArith QArith Qabs Bool Lia Lra Lqa.
From Stdlib Require Import Reals Qreals.
From Stdlib Require Import SpecFloat.
Import ListNotations.

Local Open Scope Q_scope.

(** Linear arithmetic on the rationals and on the reals. *)
Ltac lraQ := Lqa.lra.

(** ** Numbers *)

Module Num.

(** [a < b] on JavaScript numbers. *)
Definition ltb (a b : Q) : bool := negb (Qle_bool b a).

(** [a === b] on JavaScript numbers. *)
Definition eqb (a b : Q) : bool := Qeq_bool a b.

(** Truthiness of a number: every number but 0 is truthy. *)
Definition truthy (a : Q) : bool := negb (Qeq_bool a 0).

(** The value of [Math.sqrt(x * x + y * y)] or of a literal: the radicand
    is kept, so that comparisons stay exact and executable. *)
Inductive Dist : Type :=
| Exact (q : Q)
| Sqrt (radicand : Q).

(** [distance > m]: for a square root of [s >= 0], [m < 0] or [m * m < s]. *)
Definition dist_gt (d : Dist) (m : Q) : bool :=
  match d with
  | Exact q => ltb m q
  | Sqrt s => ltb m 0 || ltb (m * m) s
  end.

(** [distance < m]: for a square root of [s >= 0], [0 < m] and [s < m * m]. *)
Definition dist_lt (d : Dist) (m : Q) : bool :=
  match d with
  | Exact q => ltb q m
  | Sqrt s => ltb 0 m && ltb s (m * m)
  end.



End Num.

(** ** Enumerations *)

Inductive PointerMode : Type := Draw | Drag.

(** [OriginX] and [OriginY] are two TypeScript enums over the same three
    string values ['start'], ['center'] and ['end']; [snapOrigin] takes
    either and compares the string. *)
Inductive Origin : Type := Origin_start | Origin_center | Origin_end.

Definition OriginX := Origin.
Definition OriginY := Origin.

Module OriginX.
Definition Left : OriginX := Origin_start.
Definition Center : OriginX := Origin_center.
Definition Right : OriginX := Origin_end.
End OriginX.

Module OriginY.
Definition Top : OriginY := Origin_start.
Definition Center : OriginY := Origin_center.
Definition Bottom : OriginY := Origin_end.
End OriginY.

Inductive PointerChangeType : Type :=
| Up | Down | Move | Menu | DrawStart | DrawEnd | DragStart | DragEnd | Cancel.

Module Mouse.
Definition Left : Z := 0%Z.
Definition Middle : Z := 1%Z.
Definition Right : Z := 2%Z.
End Mouse.

Definition PointerMode_eqb (a b : PointerMode) : bool :=
  match a, b with
  | Draw, Draw | Drag, Drag => true
  | _, _ => false
  end.

(** ** Pure helpers *)

(** [snapOrigin(start, delta, origin)]: the pair [(position, size)].  The
    subtraction and the halving are exact here; in doubles [start - size]
    is rounded, so [position + size] need not give [start] back. *)
Definition snapOrigin (start delta : Q) (origin : Origin) : Q * Q :=
  let size := Qabs delta in
  match origin with
  | Origin_start =>
      let position := if Num.ltb delta 0 then start - size else start in
      (position, size)
  | Origin_center =>
      let size := size * 2 in
      let position := start - (size / 2) in
      (position, size)
  | Origin_end =>
      let position := if Num.ltb delta 0 then start else start - size in
      (position, size)
  end.

(** [getEventType(mode, end)]. *)
Definition getEventType (mode : option PointerMode) (end_ : bool)
  : PointerChangeType :=
  match mode with
  | Some Draw => if end_ then DrawEnd else DrawStart
  | Some Drag => if end_ then DragEnd else DragStart
  | None => if end_ then Up else Down
  end.

(** ** Options *)

(** A property of an options object: missing, present with the value
    [undefined], or present with a value.  The constructor tells the first
    two apart (['originX' in options]); [??] and destructuring defaults do
    not. *)
Inductive prop (A : Type) : Type :=
| Absent
| Undefined
| Value (a : A).

Arguments Absent {A}.
Arguments Undefined {A}.
Arguments Value {A} a.

(** [p ?? d], and the default of a destructuring pattern. *)
Definition nullish {A : Type} (p : prop A) (d : A) : A :=
  match p with
  | Value a => a
  | _ => d
  end.

(** [p ?? d] where [d] itself may be [undefined]. *)
Definition nullish_opt {A : Type} (p : prop A) (d : option A) : option A :=
  match p with
  | Value a => Some a
  | _ => d
  end.

(** ['key' in options]. *)
Definition has {A : Type} (p : prop A) : bool :=
  match p with
  | Absent => false
  | _ => true
  end.

(** One property of [Object.assign(target, source)]. *)
Definition assign_prop {A : Type} (target source : prop A) : prop A :=
  if has source then source else target.

(** DOM elements are opaque identities. *)
Definition Element := nat.

Module Options.

(** [PointerOptions]. *)
Record t : Type := {
  name : prop string;
  mode : prop PointerMode;
  passive : prop bool;
  scaleDeltas : prop bool;
  scaleClients : prop bool;
  relative : prop Element;
  originX : prop OriginX;
  originY : prop OriginY;
  ratioLock : prop bool;
  deltaScale : prop Q;
  deltaZoom : prop Q;
  dragMin : prop Q;
  dragMax : prop Q;
  touchOnly : prop bool;
  mouseOnly : prop bool
}.

(** The object literal [{}]. *)
Definition empty : t :=
  {| name := Absent; mode := Absent; passive := Absent;
     scaleDeltas := Absent; scaleClients := Absent; relative := Absent;
     originX := Absent; originY := Absent; ratioLock := Absent;
     deltaScale := Absent; deltaZoom := Absent;
     dragMin := Absent; dragMax := Absent;
     touchOnly := Absent; mouseOnly := Absent |}.

(** [Object.assign(options, newOptions)]; [newOptions] may be
    [undefined]. *)
Definition assign (o : t) (newOptions : option t) : t :=
  match newOptions with
  | None => o
  | Some n =>
      {| name := assign_prop (name o) (name n);
         mode := assign_prop (mode o) (mode n);
         passive := assign_prop (passive o) (passive n);
         scaleDeltas := assign_prop (scaleDeltas o) (scaleDeltas n);
         scaleClients := assign_prop (scaleClients o) (scaleClients n);
         relative := assign_prop (relative o) (relative n);
         originX := assign_prop (originX o) (originX n);
         originY := assign_prop (originY o) (originY n);
         ratioLock := assign_prop (ratioLock o) (ratioLock n);
         deltaScale := assign_prop (deltaScale o) (deltaScale n);
         deltaZoom := assign_prop (deltaZoom o) (deltaZoom n);
         dragMin := assign_prop (dragMin o) (dragMin n);
         dragMax := assign_prop (dragMax o) (dragMax n);
         touchOnly := assign_prop (touchOnly o) (touchOnly n);
         mouseOnly := assign_prop (mouseOnly o) (mouseOnly n) |}
  end.

(** [newOptions?.key]. *)
Definition get {A : Type} (key : t -> prop A) (newOptions : option t)
  : prop A :=
  match newOptions with
  | None => Undefined
  | Some n => key n
  end.

End Options.

(** ** Native events *)

Module Ev.

(** The fields of a [PointerEvent] the tracker reads. *)
Record PointerEvent : Type := {
  pointerId : Z;
  isPrimary : bool;
  altKey : bool;
  shiftKey : bool;
  pressure : Q;
  clientX : Q;
  clientY : Q;
  pointerType : string;
  button : Z;
  target : Element
}.

(** The fields of a [KeyboardEvent] the tracker reads. *)
Record KeyboardEvent : Type := {
  key : string;
  code : string
}.

End Ev.

(** The result of [getBoundingClientRect()]. *)
Record DOMRect : Type := {
  left : Q;
  top : Q;
  width : Q;
  height : Q
}.

(** The page layout when a native event arrives: the bounding rectangle of
    each element. *)
Definition Layout := Element -> DOMRect.

(** ** The contact registry: [Map<number, PointerEvent>]

    A JavaScript [Map] iterates in insertion order; [set] on a present key
    keeps its place and replaces the value. *)
Module PMap.

Definition t := list (Z * Ev.PointerEvent).

Definition empty : t := [].

Fixpoint set (k : Z) (v : Ev.PointerEvent) (m : t) : t :=
  match m with
  | [] => [(k, v)]
  | (k', v') :: rest =>
      if (k' =? k)%Z then (k, v) :: rest else (k', v') :: set k v rest
  end.

Fixpoint delete (k : Z) (m : t) : t :=
  match m with
  | [] => []
  | (k', v') :: rest =>
      if (k' =? k)%Z then rest else (k', v') :: delete k rest
  end.

Definition size (m : t) : nat := List.length m.

Definition values (m : t) : list Ev.PointerEvent := List.map snd m.

Definition clear (m : t) : t := [].

End PMap.

(** ** The subscriber set: [Set<callback>]

    A callback is identified by its function identity, a [nat] here; a
    [Set] holds it at most once and iterates in insertion order. *)
Module CSet.

Definition t := list nat.

Definition empty : t := [].

Definition mem (cb : nat) (s : t) : bool := List.existsb (Nat.eqb cb) s.

Definition add (cb : nat) (s : t) : t :=
  if mem cb s then s else s ++ [cb].

Definition delete (cb : nat) (s : t) : t :=
  List.filter (fun c => negb (Nat.eqb cb c)) s.

Definition clear (s : t) : t := [].

End CSet.

(** ** Mode classification *)

(** [getPointerDistance(touches)], with the exact sum of squares as the
    radicand; [Double.getPointerDistance] is the same function on
    doubles, where the sum is rounded. *)
Definition getPointerDistance (touches : PMap.t) : Num.Dist :=
  if (PMap.size touches =? 1)%nat then Num.Exact 0
  else if (PMap.size touches =? 2)%nat then
    match PMap.values touches with
    | t1 :: t2 :: _ =>
        let x := Ev.clientX t1 - Ev.clientX t2 in
        let y := Ev.clientY t1 - Ev.clientY t2 in
        Num.Sqrt (x * x + y * y)
    | _ => Num.Exact 0 (* not reached: the map has two entries *)
    end
  else Num.Exact 0.

(** [getPointerMode(pointers, dragMin, dragMax, space)]; the call site
    passes all four arguments.  With two contacts the band is decided on
    the exact distance; [Double.getPointerMode] decides it on the computed
    one. *)
Definition getPointerMode (pointers : PMap.t) (dragMin dragMax : Q)
  (space : bool) : option PointerMode :=
  if (PMap.size pointers =? 1)%nat then
    match PMap.values pointers with
    | pointer :: _ =>
        if String.eqb (Ev.pointerType pointer) "mouse"
           && ((Ev.button pointer =? Mouse.Middle)%Z || space)
        then Some Drag
        else if space then Some Drag else Some Draw
    | [] => None (* not reached: the map has one entry *)
    end
  else if (2 <=? PMap.size pointers)%nat then
    let distance := getPointerDistance pointers in
    if Num.dist_gt distance dragMin && Num.dist_lt distance dragMax
    then Some Drag
    else None
  else None.

(** ** Tracker state *)

(** The configuration variables of the closure: set by the constructor and
    replaced by [update] only. *)
Record Config : Type := {
  mode : option PointerMode;
  name : string;
  relative : Element;
  passive : bool;
  scaleDeltas : bool;
  scaleClients : bool;
  deltaScale : Q;
  deltaZoom : Q;
  dragMin : Q;
  dragMax : Q;
  touchOnly : bool;
  mouseOnly : bool
}.

(** The twelve geometry variables of the closure; [dispatch] copies all of
    them into every event. *)
Record Geometry : Type := {
  clientX : Q;
  clientY : Q;
  offsetX : Q;
  offsetY : Q;
  startX : Q;
  startY : Q;
  deltaX : Q;
  deltaY : Q;
  clientLeft : Q;
  clientTop : Q;
  clientWidth : Q;
  clientHeight : Q
}.

(** The state captured by the closure of [pointer(element, options)].
    [options] is the caller's object, which the tracker writes to and reads
    back; [attached] tells whether the native listeners are installed. *)
Record Tracker : Type := {
  element : Element;
  options : Options.t;
  config : Config;
  originX : OriginX;
  originY : OriginY;
  ratioLock : bool;
  geometry : Geometry;
  spaceKey : bool;
  activeMode : option PointerMode;
  activeTarget : option Element;
  tracking : bool;
  pointers : PMap.t;
  subscribers : CSet.t;
  attached : bool
}.

(** ** Dispatched events *)

Module Change.

(** [PointerChange]: the event type, the [details] snapshot and the
    [target] of [detail]. *)
Record t : Type := {
  type : PointerChangeType;
  geometry : Geometry;
  originX : OriginX;
  originY : OriginY;
  isRatioLocked : bool;
  isMoving : bool;
  isDrawing : bool;
  isDragging : bool;
  mode : option PointerMode;
  target : option Element
}.

End Change.

(** What a handler makes observable: a call of a subscriber with the event,
    or [element.dispatchEvent(event)]. *)
Inductive Emission : Type :=
| Callback (callback : nat) (event : Change.t)
| DispatchEvent (host : Element) (event : Change.t).

Definition emitted (em : Emission) : Change.t :=
  match em with
  | Callback _ event => event
  | DispatchEvent _ event => event
  end.

Definition is_mode (m : PointerMode) (am : option PointerMode) : bool :=
  match am with
  | Some a => PointerMode_eqb a m
  | None => false
  end.

Definition defined {A : Type} (o : option A) : bool :=
  match o with
  | Some _ => true
  | None => false
  end.

(** [dispatch(type)]: one event object, handed to every subscriber in
    insertion order, then to the host element. *)
Definition dispatch (type : PointerChangeType) (st : Tracker)
  : list Emission :=
  let event :=
    {| Change.type := type;
       Change.geometry := geometry st;
       Change.originX := originX st;
       Change.originY := originY st;
       Change.isRatioLocked := ratioLock st;
       Change.isMoving := match type with Move => true | _ => false end;
       Change.isDrawing := tracking st && is_mode Draw (activeMode st);
       Change.isDragging := tracking st && is_mode Drag (activeMode st);
       Change.mode := activeMode st;
       Change.target := activeTarget st |} in
  List.map (fun callback => Callback callback event) (subscribers st)
  ++ [DispatchEvent (element st) event].

(** ** Construction *)

(** [if (!('key' in options)) options.key = value]. *)
Definition ensure {A : Type} (p : prop A) (value : A) : prop A :=
  if has p then p else Value value.

(** [pointer(element, options)] up to the installation of the listeners. *)
Definition pointer (element : Element) (options : Options.t) : Tracker :=
  let originX := nullish (Options.originX options) OriginX.Left in
  let originY := nullish (Options.originY options) OriginY.Top in
  let ratioLock := nullish (Options.ratioLock options) false in
  {| element := element;
     options :=
       {| Options.name := Options.name options;
          Options.mode := Options.mode options;
          Options.passive := Options.passive options;
          Options.scaleDeltas := Options.scaleDeltas options;
          Options.scaleClients := Options.scaleClients options;
          Options.relative := Options.relative options;
          Options.originX := ensure (Options.originX options) originX;
          Options.originY := ensure (Options.originY options) originY;
          Options.ratioLock := ensure (Options.ratioLock options) ratioLock;
          Options.deltaScale := Options.deltaScale options;
          Options.deltaZoom := Options.deltaZoom options;
          Options.dragMin := Options.dragMin options;
          Options.dragMax := Options.dragMax options;
          Options.touchOnly := Options.touchOnly options;
          Options.mouseOnly := Options.mouseOnly options |};
     config :=
       {| mode := nullish_opt (Options.mode options) None;
          name := nullish (Options.name options) "global"%string;
          relative := nullish (Options.relative options) element;
          passive := nullish (Options.passive options) false;
          scaleDeltas := nullish (Options.scaleDeltas options) false;
          scaleClients := nullish (Options.scaleClients options) false;
          deltaScale := nullish (Options.deltaScale options) 1;
          deltaZoom := nullish (Options.deltaZoom options) 1;
          dragMin := nullish (Options.dragMin options) 50;
          dragMax := nullish (Options.dragMax options) 125;
          touchOnly := nullish (Options.touchOnly options) false;
          mouseOnly := nullish (Options.mouseOnly options) false |};
     originX := originX;
     originY := originY;
     ratioLock := ratioLock;
     geometry :=
       {| clientX := 0; clientY := 0; offsetX := 0; offsetY := 0;
          startX := 0; startY := 0; deltaX := 0; deltaY := 0;
          clientLeft := 0; clientTop := 0;
          clientWidth := 0; clientHeight := 0 |};
     spaceKey := false;
     activeMode := None;
     activeTarget := None;
     tracking := false;
     pointers := PMap.empty;
     subscribers := CSet.empty;
     attached := true |}.

(** ** Handlers

    A handler takes the state and returns the state it leaves with the
    emissions it made, in order.  The [logger.debug] calls of the source
    are not observable by subscribers and are left out. *)

Definition Handler := Tracker -> Tracker * list Emission.

(** [flush()]. *)
Definition flush (st : Tracker) : Tracker :=
  {| element := element st;
     options := options st;
     config := config st;
     originX := nullish (Options.originX (options st)) (originX st);
     originY := nullish (Options.originY (options st)) (originY st);
     ratioLock := nullish (Options.ratioLock (options st)) (ratioLock st);
     geometry :=
       {| clientX := clientX (geometry st);
          clientY := clientY (geometry st);
          offsetX := offsetX (geometry st);
          offsetY := offsetY (geometry st);
          startX := 0; startY := 0; deltaX := 0; deltaY := 0;
          clientLeft := 0; clientTop := 0;
          clientWidth := 0; clientHeight := 0 |};
     spaceKey := spaceKey st;
     activeMode := None;
     activeTarget := None;
     tracking := false;
     pointers := PMap.clear (pointers st);
     subscribers := subscribers st;
     attached := attached st |}.

(** [isAcceptable(e)]. *)
Definition isAcceptable (e : Ev.PointerEvent) (st : Tracker) : bool :=
  match activeMode st with
  | None => false
  | Some am =>
      if negb (spaceKey st)
         && defined (mode (config st))
         && negb (is_mode am (mode (config st)))
      then false
      else true
  end.

(** [start(e)], the [pointerdown] listener of the host element. *)
Definition start (e : Ev.PointerEvent) : Handler := fun st =>
  let pointers' := PMap.set (Ev.pointerId e) e (pointers st) in
  let activeMode' :=
    getPointerMode pointers' (dragMin (config st)) (dragMax (config st))
      (spaceKey st) in
  if Ev.isPrimary e then
    let st' :=
      {| element := element st;
         options := options st;
         config := config st;
         originX := if Ev.altKey e then OriginX.Center else originX st;
         originY := if Ev.altKey e then OriginY.Center else originY st;
         ratioLock := if Ev.shiftKey e then true else ratioLock st;
         geometry := geometry st;
         spaceKey := spaceKey st;
         activeMode := activeMode';
         activeTarget := Some (Ev.target e);
         tracking := tracking st;
         pointers := pointers';
         subscribers := subscribers st;
         attached := attached st |} in
    (st', dispatch Down st')
  else
    ({| element := element st;
        options := options st;
        config := config st;
        originX := originX st;
        originY := originY st;
        ratioLock := ratioLock st;
        geometry := geometry st;
        spaceKey := spaceKey st;
        activeMode := activeMode';
        activeTarget := activeTarget st;
        tracking := tracking st;
        pointers := pointers';
        subscribers := subscribers st;
        attached := attached st |}, []).

(** The geometry and the tracking flag are the only variables [move]
    writes. *)
Definition set_geometry (g : Geometry) (t : bool) (st : Tracker) : Tracker :=
  {| element := element st;
     options := options st;
     config := config st;
     originX := originX st;
     originY := originY st;
     ratioLock := ratioLock st;
     geometry := g;
     spaceKey := spaceKey st;
     activeMode := activeMode st;
     activeTarget := activeTarget st;
     tracking := t;
     pointers := pointers st;
     subscribers := subscribers st;
     attached := attached st |}.

(** [(screen - origin * (scaleClients ? deltaZoom : 1)) / deltaScale], the
    expression of [cx] and [cy] in [move].  For a [deltaScale] of zero the
    code gets an infinity or [NaN] where [Qdiv] gives 0: what is proved of
    the client position is proved for a scale other than zero. *)
Definition relativeCoord (cfg : Config) (screen origin : Q) : Q :=
  (screen - origin * (if scaleClients cfg then deltaZoom cfg else 1))
  / deltaScale cfg.

(** The ratio lock of [move]:
    [(deltaY < 0) ? (deltaX < 0 ? deltaX : -deltaX)
                  : (deltaX < 0 ? -deltaX : deltaX)]. *)
Definition lockRatio (deltaX deltaY : Q) : Q :=
  if Num.ltb deltaY 0
  then (if Num.ltb deltaX 0 then deltaX else - deltaX)
  else (if Num.ltb deltaX 0 then - deltaX else deltaX).

(** [move], first block: the new client position and offsets. *)
Definition move_locate (cx cy : Q) (rect : DOMRect) (st : Tracker)
  : Tracker :=
  let g := geometry st in
  set_geometry
    {| clientX := cx; clientY := cy;
       offsetX := (cx / width rect) * 100;
       offsetY := (cy / height rect) * 100;
       startX := startX g; startY := startY g;
       deltaX := deltaX g; deltaY := deltaY g;
       clientLeft := clientLeft g; clientTop := clientTop g;
       clientWidth := clientWidth g; clientHeight := clientHeight g |}
    (tracking st) st.

(** [move], second block: tracking starts and the start point is taken. *)
Definition move_begin (e : Ev.PointerEvent) : Handler := fun st =>
  if Num.truthy (Ev.pressure e) && negb (tracking st) && isAcceptable e st
  then
    let g := geometry st in
    let draw := is_mode Draw (activeMode st) in
    let st' :=
      set_geometry
        {| clientX := clientX g; clientY := clientY g;
           offsetX := offsetX g; offsetY := offsetY g;
           startX := if draw then clientX g else Ev.clientX e;
           startY := if draw then clientY g else Ev.clientY e;
           deltaX := deltaX g; deltaY := deltaY g;
           clientLeft := clientLeft g; clientTop := clientTop g;
           clientWidth := clientWidth g; clientHeight := clientHeight g |}
        true st in
    (st', dispatch (getEventType (activeMode st') false) st')
  else (st, []).

(** [move], third block: the deltas and, in Draw mode, the rectangle. *)
Definition move_derive (e : Ev.PointerEvent) (st : Tracker) : Tracker :=
  let g := geometry st in
  if tracking st then
    match activeMode st with
    | Some Draw =>
        let dX := clientX g - startX g in
        let dY := clientY g - startY g in
        let dY := if ratioLock st then lockRatio dX dY else dY in
        let '(cLeft, cWidth) := snapOrigin (startX g) dX (originX st) in
        let '(cTop, cHeight) := snapOrigin (startY g) dY (originY st) in
        set_geometry
          {| clientX := clientX g; clientY := clientY g;
             offsetX := offsetX g; offsetY := offsetY g;
             startX := startX g; startY := startY g;
             deltaX := dX; deltaY := dY;
             clientLeft := cLeft; clientTop := cTop;
             clientWidth := cWidth; clientHeight := cHeight |}
          (tracking st) st
    | Some Drag =>
        set_geometry
          {| clientX := clientX g; clientY := clientY g;
             offsetX := offsetX g; offsetY := offsetY g;
             startX := startX g; startY := startY g;
             deltaX := Ev.clientX e - startX g;
             deltaY := Ev.clientY e - startY g;
             clientLeft := clientLeft g; clientTop := clientTop g;
             clientWidth := clientWidth g; clientHeight := clientHeight g |}
          (tracking st) st
    | None => st
    end
  else st.

(** [move(e)], the [pointermove] listener of the document; [layout] gives
    the rectangle [relative.getBoundingClientRect()] returns. *)
Definition move (e : Ev.PointerEvent) (layout : Layout) : Handler := fun st =>
  if (passive (config st) && negb (Num.truthy (Ev.pressure e)))
     || negb (Ev.isPrimary e)
  then (st, [])
  else
    let rect := layout (relative (config st)) in
    let cx := relativeCoord (config st) (Ev.clientX e) (left rect) in
    let cy := relativeCoord (config st) (Ev.clientY e) (top rect) in
    if Num.eqb cx (clientX (geometry st))
       && Num.eqb cy (clientY (geometry st))
    then (st, [])
    else
      let '(st1, started) := move_begin e (move_locate cx cy rect st) in
      let st2 := move_derive e st1 in
      (st2, started ++ dispatch Move st2).

(** The contact registry, and nothing else, is replaced. *)
Definition set_pointers (m : PMap.t) (st : Tracker) : Tracker :=
  {| element := element st;
     options := options st;
     config := config st;
     originX := originX st;
     originY := originY st;
     ratioLock := ratioLock st;
     geometry := geometry st;
     spaceKey := spaceKey st;
     activeMode := activeMode st;
     activeTarget := activeTarget st;
     tracking := tracking st;
     pointers := m;
     subscribers := subscribers st;
     attached := attached st |}.

(** [end(e)], the [pointerup] listener of the document. *)
Definition end_ (e : Ev.PointerEvent) : Handler := fun st =>
  let st1 := set_pointers (PMap.delete (Ev.pointerId e) (pointers st)) st in
  let '(st2, ended) :=
    if defined (activeMode st1) && tracking st1
    then (flush st1, dispatch (getEventType (activeMode st1) true) st1)
    else (st1, []) in
  if (PMap.size (pointers st2) =? 0)%nat
  then (flush st2, ended ++ dispatch Up st2)
  else (st2, ended).

(** [leave(e)], the [pointerleave] listener of the host element. *)
Definition leave (e : Ev.PointerEvent) : Handler := fun st =>
  if negb (defined (activeMode st)) || negb (Ev.isPrimary e)
     || negb (tracking st)
  then (st, [])
  else (st, dispatch Cancel st).

Definition set_spaceKey (b : bool) (st : Tracker) : Tracker :=
  {| element := element st;
     options := options st;
     config := config st;
     originX := originX st;
     originY := originY st;
     ratioLock := ratioLock st;
     geometry := geometry st;
     spaceKey := b;
     activeMode := activeMode st;
     activeTarget := activeTarget st;
     tracking := tracking st;
     pointers := pointers st;
     subscribers := subscribers st;
     attached := attached st |}.

(** [keydown(e)], a listener of the document. *)
Definition keydown (e : Ev.KeyboardEvent) : Handler := fun st =>
  let '(st1, canceled) :=
    if String.eqb (Ev.key e) "Escape" && defined (activeMode st)
       && tracking st
    then (flush st, dispatch Cancel st)
    else (st, []) in
  if String.eqb (Ev.code e) "Space"
  then (set_spaceKey true st1, canceled)
  else (st1, canceled).

(** [keyup(e)], a listener of the document. *)
Definition keyup (e : Ev.KeyboardEvent) : Handler := fun st =>
  if String.eqb (Ev.code e) "Space"
  then (set_spaceKey false st, [])
  else (st, []).

(** ** The handle: [update], [destroy], [subscribe] *)

(** [update(newOptions)]. *)
Definition update (newOptions : option Options.t) (st : Tracker) : Tracker :=
  let cfg := config st in
  {| element := element st;
     options := Options.assign (options st) newOptions;
     config :=
       {| mode := nullish_opt (Options.get Options.mode newOptions) (mode cfg);
          name := nullish (Options.get Options.name newOptions) (name cfg);
          relative :=
            nullish (Options.get Options.relative newOptions) (relative cfg);
          passive :=
            nullish (Options.get Options.passive newOptions) (passive cfg);
          scaleDeltas :=
            nullish (Options.get Options.scaleDeltas newOptions)
              (scaleDeltas cfg);
          scaleClients :=
            nullish (Options.get Options.scaleClients newOptions)
              (scaleClients cfg);
          deltaScale :=
            nullish (Options.get Options.deltaScale newOptions)
              (deltaScale cfg);
          deltaZoom :=
            nullish (Options.get Options.deltaZoom newOptions)
              (deltaZoom cfg);
          dragMin :=
            nullish (Options.get Options.dragMin newOptions) (dragMin cfg);
          dragMax :=
            nullish (Options.get Options.dragMax newOptions) (dragMax cfg);
          touchOnly :=
            nullish (Options.get Options.touchOnly newOptions)
              (touchOnly cfg);
          mouseOnly :=
            nullish (Options.get Options.mouseOnly newOptions)
              (mouseOnly cfg) |};
     originX := nullish (Options.get Options.originX newOptions) (originX st);
     originY := nullish (Options.get Options.originY newOptions) (originY st);
     ratioLock :=
       nullish (Options.get Options.ratioLock newOptions) (ratioLock st);
     geometry := geometry st;
     spaceKey := spaceKey st;
     activeMode := activeMode st;
     activeTarget := activeTarget st;
     tracking := tracking st;
     pointers := pointers st;
     subscribers := subscribers st;
     attached := attached st |}.

(** [destroy()]: the listeners are removed, the subscriber set and the
    registry are cleared. *)
Definition destroy (st : Tracker) : Tracker :=
  {| element := element st;
     options := options st;
     config := config st;
     originX := originX st;
     originY := originY st;
     ratioLock := ratioLock st;
     geometry := geometry st;
     spaceKey := spaceKey st;
     activeMode := activeMode st;
     activeTarget := activeTarget st;
     tracking := tracking st;
     pointers := PMap.clear (pointers st);
     subscribers := CSet.clear (subscribers st);
     attached := false |}.

Definition set_subscribers (s : CSet.t) (st : Tracker) : Tracker :=
  {| element := element st;
     options := options st;
     config := config st;
     originX := originX st;
     originY := originY st;
     ratioLock := ratioLock st;
     geometry := geometry st;
     spaceKey := spaceKey st;
     activeMode := activeMode st;
     activeTarget := activeTarget st;
     tracking := tracking st;
     pointers := pointers st;
     subscribers := s;
     attached := attached st |}.

(** The closure [() => { subscribers.delete(callback) }] that
    [subscribe(callback)] returns; it acts on the tracker it is called
    against. *)
Definition unsubscribe (callback : nat) (st : Tracker) : Tracker :=
  set_subscribers (CSet.delete callback (subscribers st)) st.

(** [subscribe(callback)]: the new state and the returned closure. *)
Definition subscribe (callback : nat) (st : Tracker)
  : Tracker * (Tracker -> Tracker) :=
  (set_subscribers (CSet.add callback (subscribers st)) st,
   unsubscribe callback).

(** ** Runs *)

(** What can happen to a tracker: a native event reaching one of its
    listeners, or a call on its handle.  [Unsubscribe callback] is a call of
    a closure returned by some [subscribe(callback)]. *)
Inductive Input : Type :=
| PointerDown (e : Ev.PointerEvent)
| PointerMove (e : Ev.PointerEvent) (layout : Layout)
| PointerUp (e : Ev.PointerEvent)
| PointerLeave (e : Ev.PointerEvent)
| KeyDown (e : Ev.KeyboardEvent)
| KeyUp (e : Ev.KeyboardEvent)
| Update (newOptions : option Options.t)
| Destroy
| Subscribe (callback : nat)
| Unsubscribe (callback : nat).

(** A native event runs its listener only while the listeners are
    installed. *)
Definition listen (h : Handler) : Handler := fun st =>
  if attached st then h st else (st, []).

Definition step (st : Tracker) (i : Input) : Tracker * list Emission :=
  match i with
  | PointerDown e => listen (start e) st
  | PointerMove e layout => listen (move e layout) st
  | PointerUp e => listen (end_ e) st
  | PointerLeave e => listen (leave e) st
  | KeyDown e => listen (keydown e) st
  | KeyUp e => listen (keyup e) st
  | Update newOptions => (update newOptions st, [])
  | Destroy => (destroy st, [])
  | Subscribe callback => (fst (subscribe callback st), [])
  | Unsubscribe callback => (unsubscribe callback st, [])
  end.

(** The state after a sequence of inputs and everything emitted on the
    way. *)
Fixpoint run (st : Tracker) (inputs : list Input) : Tracker * list Emission :=
  match inputs with
  | [] => (st, [])
  | i :: rest =>
      let '(st1, out1) := step st i in
      let '(st2, out2) := run st1 rest in
      (st2, out1 ++ out2)
  end.

(** ** Erasure of [touchOnly] and [mouseOnly]

    To compare two runs that differ in these two options only, both are
    mapped to the run where the options are missing. *)

Definition erase_options (o : Options.t) : Options.t :=
  {| Options.name := Options.name o;
     Options.mode := Options.mode o;
     Options.passive := Options.passive o;
     Options.scaleDeltas := Options.scaleDeltas o;
     Options.scaleClients := Options.scaleClients o;
     Options.relative := Options.relative o;
     Options.originX := Options.originX o;
     Options.originY := Options.originY o;
     Options.ratioLock := Options.ratioLock o;
     Options.deltaScale := Options.deltaScale o;
     Options.deltaZoom := Options.deltaZoom o;
     Options.dragMin := Options.dragMin o;
     Options.dragMax := Options.dragMax o;
     Options.touchOnly := Absent;
     Options.mouseOnly := Absent |}.

Definition erase_config (c : Config) : Config :=
  {| mode := mode c; name := name c; relative := relative c;
     passive := passive c; scaleDeltas := scaleDeltas c;
     scaleClients := scaleClients c; deltaScale := deltaScale c;
     deltaZoom := deltaZoom c; dragMin := dragMin c; dragMax := dragMax c;
     touchOnly := false; mouseOnly := false |}.

Definition erase_tracker (st : Tracker) : Tracker :=
  {| element := element st;
     options := erase_options (options st);
     config := erase_config (config st);
     originX := originX st;
     originY := originY st;
     ratioLock := ratioLock st;
     geometry := geometry st;
     spaceKey := spaceKey st;
     activeMode := activeMode st;
     activeTarget := activeTarget st;
     tracking := tracking st;
     pointers := pointers st;
     subscribers := subscribers st;
     attached := attached st |}.

Definition erase_input (i : Input) : Input :=
  match i with
  | Update (Some n) => Update (Some (erase_options n))
  | _ => i
  end.

(** ** The distance in double arithmetic

    The tracker of this file computes on exact rationals.  Where rounding
    decides, here at the edges of the drag band, the two functions of the
    classification are given a second time on IEEE 754 binary64 numbers
    ([spec_float] with 53 bits of precision), with the operations of the
    standard library's specification of floating-point arithmetic:
    [Math.sqrt(x * x + y * y)] rounds after each of the five operations. *)
Module Double.

Definition double : Type := spec_float.

Definition prec : Z := 53.
Definition emax : Z := 1024.

Definition sub : double -> double -> double := SFsub prec emax.
Definition mul : double -> double -> double := SFmul prec emax.
Definition add : double -> double -> double := SFadd prec emax.
Definition sqrt : double -> double := SFsqrt prec emax.

(** [a < b] and [a === b] on doubles; both are false on [NaN]. *)
Definition ltb (a b : double) : bool := SFltb a b.
Definition eqb (a b : double) : bool := SFeqb a b.

(** The double of an integer literal, and of a power of two. *)
Definition of_Z (z : Z) : double := binary_normalize prec emax z 0 false.

(** The rational a finite double is. *)
Definition value (d : double) : option Q :=
  match d with
  | S754_zero _ => Some 0
  | S754_finite s m e => Some (inject_Z (cond_Zopp s (Zpos m)) * 2 ^ e)
  | S754_infinity _ | S754_nan => None
  end.


(** The fields of a [PointerEvent] the classification reads. *)
Record PointerEvent : Type := {
  pointerId : Z;
  pointerType : string;
  button : Z;
  clientX : double;
  clientY : double
}.

(** The registry, in insertion order. *)
Definition Registry := list (Z * PointerEvent).

Definition size (m : Registry) : nat := List.length m.

Definition values (m : Registry) : list PointerEvent := List.map snd m.

(** [Math.sqrt(x * x + y * y)] for the two contacts. *)
Definition distance (t1 t2 : PointerEvent) : double :=
  let x := sub (clientX t1) (clientX t2) in
  let y := sub (clientY t1) (clientY t2) in
  sqrt (add (mul x x) (mul y y)).

(** [getPointerDistance(touches)]. *)
Definition getPointerDistance (touches : Registry) : double :=
  if (size touches =? 1)%nat then S754_zero false
  else if (size touches =? 2)%nat then
    match values touches with
    | t1 :: t2 :: _ => distance t1 t2
    | _ => S754_zero false (* not reached: the map has two entries *)
    end
  else S754_zero false.

(** [getPointerMode(pointers, dragMin, dragMax, space)]. *)
Definition getPointerMode (pointers : Registry) (dragMin dragMax : double)
  (space : bool) : option PointerMode :=
  if (size pointers =? 1)%nat then
    match values pointers with
    | pointer :: _ =>
        if String.eqb (pointerType pointer) "mouse"
           && ((button pointer =? Mouse.Middle)%Z || space)
        then Some Drag
        else if space then Some Drag else Some Draw
    | [] => None (* not reached: the map has one entry *)
    end
  else if (2 <=? size pointers)%nat then
    let distance := getPointerDistance pointers in
    if ltb dragMin distance && ltb distance dragMax
    then Some Drag
    else None
  else None.

(** The exact square of the Euclidean distance of two contacts with finite
    coordinates. *)
Definition exact_radicand (t1 t2 : PointerEvent) : option Q :=
  match value (clientX t1), value (clientX t2),
        value (clientY t1), value (clientY t2) with
  | Some x1, Some x2, Some y1, Some y2 =>
      Some ((x1 - x2) * (x1 - x2) + (y1 - y2) * (y1 - y2))
  | _, _, _, _ => None
  end.

(** A touch contact at a position. *)
Definition touch (id : Z) (x y : double) : PointerEvent :=
  {| pointerId := id; pointerType := "touch"; button := Mouse.Left;
     clientX := x; clientY := y |}.

(** Two touch contacts, the first at the origin, the second at [(x, y)]. *)
Definition pair (x y : double) : Registry :=
  [(1%Z, touch 1 (of_Z 0) (of_Z 0)); (2%Z, touch 2 x y)].

End Double.

(** ** Receivers of a dispatch *)

(** Who an emission is handed to. *)
Inductive Receiver : Type :=
| ToSubscriber (callback : nat)
| ToHost (host : Element).

Definition addressee (em : Emission) : Receiver :=
  match em with
  | Callback callback _ => ToSubscriber callback
  | DispatchEvent host _ => ToHost host
  end.

(** Who gets an event of which kind, in the order of the calls. *)
Definition deliveries (out : list Emission)
  : list (Receiver * PointerChangeType) :=
  List.map (fun em => (addressee em, Change.type (emitted em))) out.

(** The receivers of one dispatch: every subscriber in subscription order,
    then the host element. *)
Definition audience (st : Tracker) : list Receiver :=
  List.map ToSubscriber (subscribers st) ++ [ToHost (element st)].

(** One event of the kind [ty] for each receiver. *)
Definition to_all (ty : PointerChangeType) (st : Tracker)
  : list (Receiver * PointerChangeType) :=
  List.map (fun r => (r, ty)) (audience st).

(** ** Magnitudes for which the client position is a finite double

    With a scale of magnitude at least 2^-64 and a screen coordinate, a
    rectangle origin and a zoom factor of magnitude at most 2^256, none of
    the three operations of
    [(screen - origin * (scaleClients ? deltaZoom : 1)) / deltaScale]
    overflows or divides by zero in doubles. *)
Definition ordinary (cfg : Config) (screen origin : Q) : Prop :=
  1 # (2 ^ 64) <= Qabs (deltaScale cfg) /\
  Qabs screen <= inject_Z (2 ^ 256) /\
  Qabs origin <= inject_Z (2 ^ 256) /\
  Qabs (if scaleClients cfg then deltaZoom cfg else 1) <= inject_Z (2 ^ 256).

(** ** State predicates *)

(** An empty registry has no classified mode, while the listeners are
    installed. *)
Definition idle_unclassified (st : Tracker) : Prop :=
  attached st = true -> pointers st = [] -> activeMode st = None.

(** Tracking only with a classified mode. *)
Definition tracking_classified (st : Tracker) : Prop :=
  tracking st = true -> activeMode st <> None.

(** The reset [flush] performs: start point, deltas and rectangle at zero,
    no tracking, no mode, no target, an empty registry. *)
Definition is_reset (st : Tracker) : Prop :=
  startX (geometry st) = 0 /\ startY (geometry st) = 0 /\
  deltaX (geometry st) = 0 /\ deltaY (geometry st) = 0 /\
  clientLeft (geometry st) = 0 /\ clientTop (geometry st) = 0 /\
  clientWidth (geometry st) = 0 /\ clientHeight (geometry st) = 0 /\
  tracking st = false /\ activeMode st = None /\ activeTarget st = None /\
  pointers st = [].

(** The size [snapOrigin] returns for a delta: doubled around the center. *)
Definition snapped_size (delta : Q) (origin : Origin) : Q :=
  match origin with
  | Origin_center => Qabs delta * 2
  | _ => Qabs delta
  end.

(** The two early returns of [move]: a passive tracker without pressure or
    a contact that is not primary, and an unchanged client position. *)
Definition move_ignored (e : Ev.PointerEvent) (layout : Layout)
  (st : Tracker) : bool :=
  let rect := layout (relative (config st)) in
  (passive (config st) && negb (Num.truthy (Ev.pressure e)))
  || negb (Ev.isPrimary e)
  || (Num.eqb (relativeCoord (config st) (Ev.clientX e) (left rect))
        (clientX (geometry st))
      && Num.eqb (relativeCoord (config st) (Ev.clientY e) (top rect))
           (clientY (geometry st))).

(** Along a run from [st], every [pointerdown] that reaches the listeners
    while a gesture is being tracked leaves a registry that classifies: one
    contact, or two contacts within the drag band. *)
Fixpoint contacts_stay_classified (st : Tracker) (inputs : list Input)
  : bool :=
  match inputs with
  | [] => true
  | i :: rest =>
      match i with
      | PointerDown e =>
          negb (attached st && tracking st)
          || defined (getPointerMode
                        (PMap.set (Ev.pointerId e) e (pointers st))
                        (dragMin (config st)) (dragMax (config st))
                        (spaceKey st))
      | _ => true
      end
      && contacts_stay_classified (fst (step st i)) rest
  end.




(** ** Sample inputs *)

Module Sample.

(** A contact of the given pointer type at a screen position, pressed. *)
Definition contact (pointerType : string) (id : Z) (primary : bool)
  (x y : Q) : Ev.PointerEvent :=
  {| Ev.pointerId := id; Ev.isPrimary := primary;
     Ev.altKey := false; Ev.shiftKey := false;
     Ev.pressure := 1 # 2; Ev.clientX := x; Ev.clientY := y;
     Ev.pointerType := pointerType; Ev.button := Mouse.Left;
     Ev.target := 7%nat |}.

Definition mouse := contact "mouse" 1 true.
Definition finger := contact "touch" 1 true.
Definition second_finger := contact "touch" 2 false.
Definition third_finger := contact "touch" 3 false.

(** Every element covers the same 1000 by 500 box at the page origin. *)
Definition page : Layout :=
  fun _ => {| left := 0; top := 0; width := 1000; height := 500 |}.

Definition escape : Ev.KeyboardEvent :=
  {| Ev.key := "Escape"; Ev.code := "Escape" |}.

Definition host : Element := 1%nat.

Definition ratio_locked : Options.t :=
  {| Options.name := Absent; Options.mode := Absent;
     Options.passive := Absent; Options.scaleDeltas := Absent;
     Options.scaleClients := Absent; Options.relative := Absent;
     Options.originX := Absent; Options.originY := Absent;
     Options.ratioLock := Value true;
     Options.deltaScale := Absent; Options.deltaZoom := Absent;
     Options.dragMin := Absent; Options.dragMax := Absent;
     Options.touchOnly := Absent; Options.mouseOnly := Absent |}.

Definition touch_only : Options.t :=
  {| Options.name := Absent; Options.mode := Absent;
     Options.passive := Absent; Options.scaleDeltas := Absent;
     Options.scaleClients := Absent; Options.relative := Absent;
     Options.originX := Absent; Options.originY := Absent;
     Options.ratioLock := Absent;
     Options.deltaScale := Absent; Options.deltaZoom := Absent;
     Options.dragMin := Absent; Options.dragMax := Absent;
     Options.touchOnly := Value true; Options.mouseOnly := Absent |}.

Definition mouse_only : Options.t :=
  {| Options.name := Absent; Options.mode := Absent;
     Options.passive := Absent; Options.scaleDeltas := Absent;
     Options.scaleClients := Absent; Options.relative := Absent;
     Options.originX := Absent; Options.originY := Absent;
     Options.ratioLock := Absent;
     Options.deltaScale := Absent; Options.deltaZoom := Absent;
     Options.dragMin := Absent; Options.dragMax := Absent;
     Options.touchOnly := Absent; Options.mouseOnly := Value true |}.

(** A mouse press at (100, 100) and a first move there: Draw tracking
    starts at (100, 100). *)
Definition press_and_track : list Input :=
  [PointerDown (mouse 100 100); PointerMove (mouse 100 100) page].

(** The state of a tracker with ratio lock, tracking a Draw gesture that
    started at (100, 100). *)
Definition locked_drawing : Tracker :=
  fst (run (pointer host ratio_locked) press_and_track).

(** The state of a default tracker, tracking a Draw gesture that started
    at (100, 100) and moved to (140, 70). *)
Definition drawing : Tracker :=
  fst (run (pointer host Options.empty)
         (press_and_track ++ [PointerMove (mouse 140 70) page])).

(** The Move emissions of the next move, to (60, 110): [deltaX] is -40
    and the unlocked [deltaY] is 10. *)
Definition locked_move : list Emission :=
  snd (move (mouse 60 110) page locked_drawing).

(** One finger down at the page origin on a default tracker. *)
Definition one_finger : Tracker :=
  fst (run (pointer host Options.empty) [PointerDown (finger 0 0)]).

(** A finger starts a Draw gesture at (100, 100); a second finger lands
    200 px away while the gesture is tracked. *)
Definition second_contact_mid_gesture : list Input :=
  [PointerDown (finger 100 100); PointerMove (finger 100 100) page;
   PointerDown (second_finger 300 100)].

(** Two fingers 200 px apart on a default tracker. *)
Definition wide_touch : Tracker :=
  fst (run (pointer host Options.empty)
         [PointerDown (finger 0 0); PointerDown (second_finger 200 0)]).

End Sample.

(** ** The composer: [createComposer] specialised by [createPointer]

    [createPointer(options)] is [createComposer('watch', pointer, options)].
    The composer holds its own subscriber set, a map from each subscribed
    callback to the unsubscribe closure of the client it was subscribed to,
    and the current client.  A closure refers to one client object, so the
    model keeps every client ever created in a heap, oldest first, and a
    closure is the index of its client.  The [init] object is handed to
    every client created without options of its own; such clients write to
    it and read it back, so it is shared: a write through one of them is a
    write to [init] and to all of them.  An options object given to
    [capture] is taken to be a fresh object.  The method [on], which wraps
    the callback in a new function at every call, is not modelled. *)

(** The subscriber set of a tracker, named before the composer reuses the
    name of the field. *)
Definition subscribed (st : Tracker) : CSet.t := subscribers st.

(** The options object a tracker holds, named before [capture] reuses the
    name for its argument. *)
Definition options_of (st : Tracker) : Options.t := options st.

(** The options object of a tracker is replaced. *)
Definition set_options (o : Options.t) (st : Tracker) : Tracker :=
  {| element := element st;
     options := o;
     config := config st;
     originX := originX st;
     originY := originY st;
     ratioLock := ratioLock st;
     geometry := geometry st;
     spaceKey := spaceKey st;
     activeMode := activeMode st;
     activeTarget := activeTarget st;
     tracking := tracking st;
     pointers := pointers st;
     subscribers := subscribers st;
     attached := attached st |}.

(** A native event, with the host element whose listener receives it for
    the two kinds [pointer] listens to on the element; the other four are
    listened to on the document. *)
Inductive Native : Type :=
| OnPointerDown (host : Element) (e : Ev.PointerEvent)
| OnPointerLeave (host : Element) (e : Ev.PointerEvent)
| OnPointerMove (e : Ev.PointerEvent) (layout : Layout)
| OnPointerUp (e : Ev.PointerEvent)
| OnKeyDown (e : Ev.KeyboardEvent)
| OnKeyUp (e : Ev.KeyboardEvent).

(** The input a tracker sees for a native event, if its listeners are on
    the path of the event. *)
Definition routed (n : Native) (st : Tracker) : option Input :=
  match n with
  | OnPointerDown host e =>
      if Nat.eqb host (element st) then Some (PointerDown e) else None
  | OnPointerLeave host e =>
      if Nat.eqb host (element st) then Some (PointerLeave e) else None
  | OnPointerMove e layout => Some (PointerMove e layout)
  | OnPointerUp e => Some (PointerUp e)
  | OnKeyDown e => Some (KeyDown e)
  | OnKeyUp e => Some (KeyUp e)
  end.

(** One tracker handles a native event. *)
Definition receive (n : Native) (st : Tracker) : Tracker * list Emission :=
  match routed n st with
  | Some i => step st i
  | None => (st, [])
  end.

Module Composer.

(** A client object: the tracker, and whether its options object is the
    [init] object of the composer. *)
Record Client : Type := {
  tracker : Tracker;
  shares_init : bool
}.

(** The closure state of [createComposer(name, pointer, init)]. *)
Record t : Type := {
  init : option Options.t;
  subscribers : CSet.t;
  subscriptions : list (nat * nat);
  heap : list Client;
  client : option nat
}.

(** [createComposer('watch', pointer, init)]. *)
Definition create (init : option Options.t) : t :=
  {| init := init; subscribers := CSet.empty; subscriptions := [];
     heap := []; client := None |}.

(** [subscriptions.get(callback)]. *)
Fixpoint get (cb : nat) (m : list (nat * nat)) : option nat :=
  match m with
  | [] => None
  | (c, i) :: rest => if Nat.eqb c cb then Some i else get cb rest
  end.

(** [subscriptions.delete(callback)]. *)
Definition delete (cb : nat) (m : list (nat * nat)) : list (nat * nat) :=
  List.filter (fun entry => negb (Nat.eqb (fst entry) cb)) m.

(** [subscriptions.set(callback, closure)]. *)
Definition set (cb i : nat) (m : list (nat * nat)) : list (nat * nat) :=
  (cb, i) :: delete cb m.

(** The client at index [i] is changed by [f]. *)
Fixpoint modify (i : nat) (f : Tracker -> Tracker) (h : list Client)
  : list Client :=
  match h, i with
  | [], _ => []
  | c :: rest, O =>
      {| tracker := f (tracker c); shares_init := shares_init c |} :: rest
  | c :: rest, S j => c :: modify j f rest
  end.

(** A write to the [init] object shows in every client that shares it. *)
Definition write_init (o : Options.t) (h : list Client) : list Client :=
  List.map (fun c =>
              if shares_init c
              then {| tracker := set_options o (tracker c);
                      shares_init := true |}
              else c) h.

(** The current client object, if there is one. *)
Definition current (c : t) : option Client :=
  match client c with
  | Some i => List.nth_error (heap c) i
  | None => None
  end.

(** [for (const callback of subscribers)
      subscriptions.set(callback, client.subscribe(callback))]. *)
Fixpoint resubscribe (i : nat) (callbacks : list nat)
  (h : list Client) (m : list (nat * nat))
  : list Client * list (nat * nat) :=
  match callbacks with
  | [] => (h, m)
  | cb :: rest =>
      resubscribe i rest
        (modify i (fun st => fst (subscribe cb st)) h) (set cb i m)
  end.

(** [capture(element, options)], which is also the method [watch]. *)
Definition capture (element : Element) (options : option Options.t) (c : t)
  : t :=
  let destroyed :=
    match client c with
    | Some i => modify i destroy (heap c)
    | None => heap c
    end in
  let shared :=
    match options with
    | Some _ => false
    | None => defined (init c)
    end in
  let argument :=
    match options with
    | Some o => o
    | None => match init c with
              | Some o => o
              | None => Options.empty
              end
    end in
  let fresh := pointer element argument in
  let written :=
    if shared then write_init (options_of fresh) destroyed
    else destroyed in
  let i := List.length written in
  let '(h, m) :=
    resubscribe i (subscribers c)
      (written ++ [{| tracker := fresh; shares_init := shared |}])
      (subscriptions c) in
  {| init := if shared then Some (options_of fresh) else init c;
     subscribers := subscribers c;
     subscriptions := m;
     heap := h;
     client := Some i |}.

(** [update(newOptions)]. *)
Definition update (newOptions : option Options.t) (c : t) : t :=
  match client c, current c with
  | Some i, Some cl =>
      let updated := update newOptions (tracker cl) in
      let h := modify i (fun _ => updated) (heap c) in
      {| init := if shares_init cl then Some (options_of updated)
                 else init c;
         subscribers := subscribers c;
         subscriptions := subscriptions c;
         heap := if shares_init cl
                 then write_init (options_of updated) h else h;
         client := client c |}
  | _, _ => c
  end.

(** [destroy()]. *)
Definition destroy (c : t) : t :=
  {| init := init c;
     subscribers := CSet.clear (subscribers c);
     subscriptions := [];
     heap := match client c with
             | Some i => modify i destroy (heap c)
             | None => heap c
             end;
     client := client c |}.

(** [subscribe(callback)]; the closure it returns is [unsubscribe]. *)
Definition subscribe (cb : nat) (c : t) : t :=
  {| init := init c;
     subscribers := CSet.add cb (subscribers c);
     subscriptions := match client c with
                      | Some i => set cb i (subscriptions c)
                      | None => subscriptions c
                      end;
     heap := match client c with
             | Some i =>
                 modify i (fun st => fst (subscribe cb st)) (heap c)
             | None => heap c
             end;
     client := client c |}.

(** The closure returned by [subscribe(callback)]:
    [subscribers.delete(callback); subscriptions.get(callback)?.();
     subscriptions.delete(callback)]. *)
Definition unsubscribe (cb : nat) (c : t) : t :=
  {| init := init c;
     subscribers := CSet.delete cb (subscribers c);
     subscriptions := delete cb (subscriptions c);
     heap := match get cb (subscriptions c) with
             | Some i => modify i (unsubscribe cb) (heap c)
             | None => heap c
             end;
     client := client c |}.

(** A native event reaches every client object; each handles it with its
    own listeners, in the order the clients were created. *)
Fixpoint deliver (n : Native) (h : list Client)
  : list Client * list Emission :=
  match h with
  | [] => ([], [])
  | c :: rest =>
      let '(st, out) := receive n (tracker c) in
      let '(rest', out') := deliver n rest in
      ({| tracker := st; shares_init := shares_init c |} :: rest',
       out ++ out')
  end.

(** What can happen to a composer. *)
Inductive Input : Type :=
| Capture (element : Element) (options : option Options.t)
| Update (newOptions : option Options.t)
| Destroy
| Subscribe (callback : nat)
| Unsubscribe (callback : nat)
| Event (n : Native).

Definition step (c : t) (i : Input) : t * list Emission :=
  match i with
  | Capture element options => (capture element options c, [])
  | Update newOptions => (update newOptions c, [])
  | Destroy => (destroy c, [])
  | Subscribe cb => (subscribe cb c, [])
  | Unsubscribe cb => (unsubscribe cb c, [])
  | Event n =>
      let '(h, out) := deliver n (heap c) in
      ({| init := init c; subscribers := subscribers c;
          subscriptions := subscriptions c; heap := h;
          client := client c |}, out)
  end.

Fixpoint run (c : t) (inputs : list Input) : t * list Emission :=
  match inputs with
  | [] => (c, [])
  | i :: rest =>
      let '(c1, out1) := step c i in
      let '(c2, out2) := run c1 rest in
      (c2, out1 ++ out2)
  end.

End Composer.

(** [createPointer(options)]. *)
Definition createPointer (options : option Options.t) : Composer.t :=
  Composer.create options.

(** ** Observations on registries and emissions *)

(** The contact identifiers of a registry, in insertion order. *)
Definition keys (m : PMap.t) : list Z := List.map fst m.

(** How many times a run of emissions calls the subscriber [cb]. *)
Definition calls (cb : nat) (out : list Emission) : nat :=
  List.length
    (List.filter
       (fun em => match em with
                  | Callback c _ => Nat.eqb c cb
                  | DispatchEvent _ _ => false
                  end) out).

(** The event kinds of a run of emissions, in order. *)
Definition kinds (out : list Emission) : list PointerChangeType :=
  List.map (fun em => Change.type (emitted em)) out.

(** The classification of a registry that holds the single contact [p]. *)
Definition single_contact_mode (p : Ev.PointerEvent) (space : bool)
  : PointerMode :=
  if space
     || (String.eqb (Ev.pointerType p) "mouse"
         && (Ev.button p =? Mouse.Middle)%Z)
  then Drag else Draw.

(** The three per-gesture settings a press may override (alt: both anchors
    to center; shift: ratio lock). *)
Definition anchors (st : Tracker) : OriginX * OriginY * bool :=
  (originX st, originY st, ratioLock st).

(** The number of receivers of one dispatch: the subscribers and the host
    element. *)
Definition receivers (st : Tracker) : nat := S (List.length (subscribers st)).

(** Whether an anchor is the center. *)
Definition is_center (o : Origin) : bool :=
  match o with
  | Origin_center => true
  | _ => false
  end.

(** The rectangle fields of a geometry. *)
Definition rectangle (g : Geometry) : Q * Q * Q * Q :=
  (clientLeft g, clientTop g, clientWidth g, clientHeight g).

(** What the deltas and the rectangle are after a move that tracks, from
    the start point and client position of the result [g'], the previous
    geometry [g], the event and the settings of the gesture. *)
Definition derived (e : Ev.PointerEvent) (st : Tracker) (g g' : Geometry)
  : Prop :=
  match activeMode st with
  | Some Draw =>
      deltaX g' = clientX g' - startX g' /\
      deltaY g' =
        (if ratioLock st
         then lockRatio (clientX g' - startX g') (clientY g' - startY g')
         else clientY g' - startY g') /\
      (clientLeft g', clientWidth g')
      = snapOrigin (startX g') (deltaX g') (originX st) /\
      (clientTop g', clientHeight g')
      = snapOrigin (startY g') (deltaY g') (originY st)
  | Some Drag =>
      deltaX g' = Ev.clientX e - startX g' /\
      deltaY g' = Ev.clientY e - startY g' /\
      rectangle g' = rectangle g
  | None =>
      deltaX g' = deltaX g /\ deltaY g' = deltaY g /\
      rectangle g' = rectangle g
  end.

(** The state [end] works on: the contact of the event removed. *)
Definition released (e : Ev.PointerEvent) (st : Tracker) : Tracker :=
  set_pointers (PMap.delete (Ev.pointerId e) (pointers st)) st.

(** The variables of the closure that describe the gesture in flight. *)
Definition gesture_state (st : Tracker)
  : Geometry * bool * option PointerMode * option Element * PMap.t * bool :=
  (geometry st, tracking st, activeMode st, activeTarget st, pointers st,
   spaceKey st).

(** An event is coherent when its kind, its flags and its mode agree: it is
    not a Menu event; [isMoving] holds exactly for Move; [isDrawing] and
    [isDragging] exclude each other and hold only with the mode Draw,
    respectively Drag; a draw-start or draw-end is drawing, a drag-start or
    drag-end is dragging, a Cancel is one of the two. *)
Definition coherent (ev : Change.t) : bool :=
  negb (Change.isDrawing ev && Change.isDragging ev)
  && implb (Change.isDrawing ev) (is_mode Draw (Change.mode ev))
  && implb (Change.isDragging ev) (is_mode Drag (Change.mode ev))
  && Bool.eqb (Change.isMoving ev)
       (match Change.type ev with Move => true | _ => false end)
  && match Change.type ev with
     | Menu => false
     | DrawStart | DrawEnd => Change.isDrawing ev
     | DragStart | DragEnd => Change.isDragging ev
     | Cancel => Change.isDrawing ev || Change.isDragging ev
     | Up | Down | Move => true
     end.

(** The states from which the source dispatches an event of a kind. *)
Definition permitted (ty : PointerChangeType) (st : Tracker) : bool :=
  match ty with
  | Menu => false
  | DrawStart | DrawEnd => tracking st && is_mode Draw (activeMode st)
  | DragStart | DragEnd => tracking st && is_mode Drag (activeMode st)
  | Cancel => tracking st && defined (activeMode st)
  | Up | Down | Move => true
  end.

(** What a reset leaves alone: the last client position and offsets, the
    space flag, options, configuration, subscribers and listeners. *)
Definition survives_reset (st : Tracker)
  : Q * Q * Q * Q * bool * Options.t * Config * CSet.t * bool :=
  (clientX (geometry st), clientY (geometry st),
   offsetX (geometry st), offsetY (geometry st),
   spaceKey st, options st, config st, subscribers st, attached st).

(** ** Well-formed composers *)

(** What [createComposer] maintains: every client but the current one is
    destroyed and has no subscribers; the current client has exactly the
    subscribers of the composer; an unsubscribe closure held in
    [subscriptions] belongs to the current client and to a subscribed
    callback, and every subscriber has one while there is a client; the
    subscriber set holds no callback twice. *)
Definition composed (c : Composer.t) : Prop :=
  (forall j cl,
      List.nth_error (Composer.heap c) j = Some cl ->
      Composer.client c <> Some j ->
      attached (Composer.tracker cl) = false /\
      subscribed (Composer.tracker cl) = []) /\
  (forall i,
      Composer.client c = Some i ->
      exists cl,
        List.nth_error (Composer.heap c) i = Some cl /\
        subscribed (Composer.tracker cl) = Composer.subscribers c) /\
  (forall cb j,
      Composer.get cb (Composer.subscriptions c) = Some j ->
      Composer.client c = Some j) /\
  (forall i cb,
      Composer.client c = Some i ->
      In cb (Composer.subscribers c) ->
      Composer.get cb (Composer.subscriptions c) = Some i) /\
  (forall cb j,
      Composer.get cb (Composer.subscriptions c) = Some j ->
      In cb (Composer.subscribers c)) /\
  NoDup (Composer.subscribers c).

(** What the current client of a composer emits for a native event. *)
Definition current_emits (n : Native) (c : Composer.t) : list Emission :=
  match Composer.current c with
  | Some cl => snd (receive n (Composer.tracker cl))
  | None => []
  end.

(** Every subscriber call of a run of emissions goes to a callback of the
    set [s]. *)
Definition calls_within (s : CSet.t) (out : list Emission) : Prop :=
  forall cb ev, In (Callback cb ev) out -> In cb s.

(** ** More sample inputs *)

Module Scenario.

(** A primary mouse press with the alt and shift keys held. *)
Definition modified_press : Ev.PointerEvent :=
  {| Ev.pointerId := 1; Ev.isPrimary := true;
     Ev.altKey := true; Ev.shiftKey := true;
     Ev.pressure := 1 # 2; Ev.clientX := 100; Ev.clientY := 100;
     Ev.pointerType := "mouse"; Ev.button := Mouse.Left;
     Ev.target := 7%nat |}.

(** A primary mouse press with the middle button. *)
Definition middle_press : Ev.PointerEvent :=
  {| Ev.pointerId := 1; Ev.isPrimary := true;
     Ev.altKey := false; Ev.shiftKey := false;
     Ev.pressure := 1 # 2; Ev.clientX := 100; Ev.clientY := 100;
     Ev.pointerType := "mouse"; Ev.button := Mouse.Middle;
     Ev.target := 7%nat |}.

(** A hovering mouse: primary, no pressure. *)
Definition hover (x y : Q) : Ev.PointerEvent :=
  {| Ev.pointerId := 1; Ev.isPrimary := true;
     Ev.altKey := false; Ev.shiftKey := false;
     Ev.pressure := 0; Ev.clientX := x; Ev.clientY := y;
     Ev.pointerType := "mouse"; Ev.button := Mouse.Left;
     Ev.target := 7%nat |}.

Definition space : Ev.KeyboardEvent :=
  {| Ev.key := " "; Ev.code := "Space" |}.

(** Options with the mode filter set to Drag. *)
Definition drag_only : Options.t :=
  {| Options.name := Absent; Options.mode := Value Drag;
     Options.passive := Absent; Options.scaleDeltas := Absent;
     Options.scaleClients := Absent; Options.relative := Absent;
     Options.originX := Absent; Options.originY := Absent;
     Options.ratioLock := Absent;
     Options.deltaScale := Absent; Options.deltaZoom := Absent;
     Options.dragMin := Absent; Options.dragMax := Absent;
     Options.touchOnly := Absent; Options.mouseOnly := Absent |}.

(** A default tracker with the subscribers 3 and 4, tracking the Draw
    gesture of [Sample.drawing]. *)
Definition observed_drawing : Tracker :=
  fst (run (pointer Sample.host Options.empty)
         ([Subscribe 3%nat; Subscribe 4%nat; Subscribe 3%nat]
          ++ Sample.press_and_track
          ++ [PointerMove (Sample.mouse 140 70) Sample.page])).

(** Two fingers 90 px apart on a default tracker, then a move of the first
    with pressure: a tracked Drag gesture. *)
Definition dragging : Tracker :=
  fst (run (pointer Sample.host Options.empty)
         [PointerDown (Sample.finger 100 100);
          PointerDown (Sample.second_finger 190 100);
          PointerMove (Sample.finger 110 105) Sample.page]).

(** A mouse pressed at (100, 100) on a default tracker, not yet moved. *)
Definition pressed : Tracker :=
  fst (run (pointer Sample.host Options.empty)
         [PointerDown (Sample.mouse 100 100)]).

(** A mouse pressed on a tracker that accepts Drag gestures only. *)
Definition filtered_press : Tracker :=
  fst (run (pointer Sample.host drag_only)
         [PointerDown (Sample.mouse 100 100)]).

(** Two fingers 90 px apart on a default tracker, neither moved: Mode is
    Drag and nothing is tracked. *)
Definition two_fingers : Tracker :=
  fst (run (pointer Sample.host Options.empty)
         [PointerDown (Sample.finger 100 100);
          PointerDown (Sample.second_finger 190 100)]).

(** Options whose [originX] is set to the end anchor. *)
Definition anchored_end : Options.t :=
  {| Options.name := Absent; Options.mode := Absent;
     Options.passive := Absent; Options.scaleDeltas := Absent;
     Options.scaleClients := Absent; Options.relative := Absent;
     Options.originX := Value OriginX.Right; Options.originY := Absent;
     Options.ratioLock := Absent;
     Options.deltaScale := Absent; Options.deltaZoom := Absent;
     Options.dragMin := Absent; Options.dragMax := Absent;
     Options.touchOnly := Absent; Options.mouseOnly := Absent |}.

(** A default tracker with the subscribers 3 and 4 and a mouse pressed at
    (100, 100), not yet moved. *)
Definition observed_press : Tracker :=
  fst (run (pointer Sample.host Options.empty)
         [Subscribe 3%nat; Subscribe 4%nat;
          PointerDown (Sample.mouse 100 100)]).

(** Options with the mode filter set to Draw. *)
Definition draw_only : Options.t :=
  {| Options.name := Absent; Options.mode := Value Draw;
     Options.passive := Absent; Options.scaleDeltas := Absent;
     Options.scaleClients := Absent; Options.relative := Absent;
     Options.originX := Absent; Options.originY := Absent;
     Options.ratioLock := Absent;
     Options.deltaScale := Absent; Options.deltaZoom := Absent;
     Options.dragMin := Absent; Options.dragMax := Absent;
     Options.touchOnly := Absent; Options.mouseOnly := Absent |}.

End Scenario.

(** * Properties *)

(** ** Numbers and distances *)

Module NumFacts.

Lemma ltb_lt (a b : Q) : Num.ltb a b = true <-> a < b.
Proof.
  unfold Num.ltb.
  rewrite negb_true_iff, <- not_true_iff_false, Qle_bool_iff.
  split; [apply Qnot_le_lt | apply Qlt_not_le].
Qed.

Lemma ltb_ge (a b : Q) : Num.ltb a b = false <-> b <= a.
Proof.
  unfold Num.ltb. rewrite negb_false_iff. apply Qle_bool_iff.
Qed.








End NumFacts.

(** ** The dispatcher *)

Lemma dispatch_emitted (ty : PointerChangeType) (st : Tracker)
  (em : Emission) :
  In em (dispatch ty st) ->
  Change.type (emitted em) = ty /\
  Change.geometry (emitted em) = geometry st /\
  Change.mode (emitted em) = activeMode st.
Proof.
  unfold dispatch. rewrite in_app_iff, in_map_iff.
  intros [[cb [<- _]] | [<- | []]]; simpl; auto.
Qed.

Lemma getEventType_start_not_Move (m : option PointerMode) :
  getEventType m false <> Move.
Proof. destruct m as [[|]|]; discriminate. Qed.

(** ** The origin snap *)

Lemma Qabs_zero (d : Q) : d == 0 -> Qabs d == 0.
Proof. intros ->. reflexivity. Qed.

(** C4, amended.  For every start coordinate, signed delta and anchor mode,
    the size [snapOrigin] returns is [|delta|] for the anchors [start] and
    [end] and [2 * |delta|] for [center]; when the delta is 0 the returned
    position is the start coordinate, for every anchor mode. *)
Theorem snapOrigin_size_and_rest_position (S D : Q) (origin : Origin) :
  snd (snapOrigin S D origin) = snapped_size D origin /\
  (D == 0 -> fst (snapOrigin S D origin) == S).
Proof.
  split.
  - destruct origin; reflexivity.
  - intros HD. pose proof (Qabs_zero D HD) as Habs.
    destruct origin; simpl.
    + destruct (Num.ltb D 0) eqn:Hlt; [| reflexivity].
      apply NumFacts.ltb_lt in Hlt. rewrite HD in Hlt.
      exfalso. revert Hlt. apply Qlt_irrefl.
    + rewrite Habs. field.
    + destruct (Num.ltb D 0); [reflexivity |]. rewrite Habs. ring.
Qed.

Lemma snapOrigin_size_and_rest_position_witness :
  snd (snapOrigin 100 0 Origin_center) = snapped_size 0 Origin_center /\
  fst (snapOrigin 100 0 Origin_center) == 100.
Proof.
  destruct (snapOrigin_size_and_rest_position 100 0 Origin_center)
    as [Hsize Hpos].
  split; [exact Hsize | apply Hpos; reflexivity].
Defined.

(** C4 as stated fails for the [center] anchor: at start 0 and delta 1 the
    size is 2, not [|1|]. *)
Lemma snapOrigin_center_size_counterexample :
  snd (snapOrigin 0 1 Origin_center) == 2 /\
  ~ snd (snapOrigin 0 1 Origin_center) == Qabs 1.
Proof.
  split; [reflexivity | discriminate].
Qed.

(** ** The ratio lock *)

Lemma lockRatio_nonneg (dX dY : Q) :
  0 <= dY -> lockRatio dX dY == Qabs dX.
Proof.
  intros HdY. unfold lockRatio.
  destruct (Num.ltb dY 0) eqn:HY.
  - apply NumFacts.ltb_lt in HY. lraQ.
  - destruct (Num.ltb dX 0) eqn:HX.
    + apply NumFacts.ltb_lt in HX. rewrite Qabs_neg by lraQ. reflexivity.
    + apply NumFacts.ltb_ge in HX. rewrite Qabs_pos by lraQ. reflexivity.
Qed.

Lemma lockRatio_neg (dX dY : Q) :
  dY < 0 -> lockRatio dX dY == - Qabs dX.
Proof.
  intros HdY. unfold lockRatio.
  destruct (Num.ltb dY 0) eqn:HY.
  - destruct (Num.ltb dX 0) eqn:HX.
    + apply NumFacts.ltb_lt in HX. rewrite Qabs_neg by lraQ. ring.
    + apply NumFacts.ltb_ge in HX. rewrite Qabs_pos by lraQ. reflexivity.
  - apply NumFacts.ltb_ge in HY. lraQ.
Qed.

Lemma lockRatio_abs (dX dY : Q) : Qabs (lockRatio dX dY) == Qabs dX.
Proof.
  destruct (Qlt_le_dec dY 0) as [H | H].
  - rewrite (lockRatio_neg _ _ H), Qabs_opp. apply Qabs_pos, Qabs_nonneg.
  - rewrite (lockRatio_nonneg _ _ H). apply Qabs_pos, Qabs_nonneg.
Qed.

(** ** What [move] keeps and what it writes *)

Lemma move_begin_keeps (e : Ev.PointerEvent) (st : Tracker) :
  let st' := fst (move_begin e st) in
  activeMode st' = activeMode st /\ ratioLock st' = ratioLock st /\
  pointers st' = pointers st /\ attached st' = attached st.
Proof.
  unfold move_begin.
  destruct (Num.truthy (Ev.pressure e) && negb (tracking st)
            && isAcceptable e st); simpl; repeat split.
Qed.

Lemma move_begin_emits (e : Ev.PointerEvent) (st : Tracker) (em : Emission) :
  In em (snd (move_begin e st)) -> Change.type (emitted em) <> Move.
Proof.
  unfold move_begin.
  destruct (Num.truthy (Ev.pressure e) && negb (tracking st)
            && isAcceptable e st); simpl; [| intros []].
  intros Hin. apply dispatch_emitted in Hin. destruct Hin as [-> _].
  apply getEventType_start_not_Move.
Qed.

Lemma move_begin_tracking (e : Ev.PointerEvent) (st : Tracker) :
  tracking (fst (move_begin e st)) = true ->
  tracking st = true \/ activeMode st <> None.
Proof.
  unfold move_begin.
  destruct (Num.truthy (Ev.pressure e) && negb (tracking st)
            && isAcceptable e st) eqn:Hgo; simpl; [| now left].
  intros _. right.
  apply andb_true_iff in Hgo. destruct Hgo as [_ Hacc].
  unfold isAcceptable in Hacc.
  destruct (activeMode st); [discriminate | discriminate Hacc].
Qed.

Lemma move_derive_keeps (e : Ev.PointerEvent) (st : Tracker) :
  let st' := move_derive e st in
  activeMode st' = activeMode st /\ tracking st' = tracking st /\
  pointers st' = pointers st /\ attached st' = attached st.
Proof.
  unfold move_derive.
  destruct (tracking st) eqn:Ht; [| simpl; auto].
  destruct (activeMode st) as [[|]|] eqn:Hm; simpl; auto.
  destruct (snapOrigin _ _ (originX st)), (snapOrigin _ _ (originY st)).
  simpl. auto.
Qed.

(** The geometry a Draw gesture with ratio lock leaves after a move. *)
Lemma move_derive_locked_draw (e : Ev.PointerEvent) (st : Tracker) :
  tracking st = true -> activeMode st = Some Draw -> ratioLock st = true ->
  let g := geometry st in
  let g' := geometry (move_derive e st) in
  clientX g' = clientX g /\ clientY g' = clientY g /\
  startX g' = startX g /\ startY g' = startY g /\
  deltaX g' = clientX g - startX g /\
  deltaY g' = lockRatio (clientX g - startX g) (clientY g - startY g).
Proof.
  intros Ht Hm Hl. unfold move_derive. rewrite Ht, Hm, Hl.
  destruct (snapOrigin _ _ (originX st)), (snapOrigin _ _ (originY st)).
  simpl. repeat split.
Qed.

(** C1, amended.  In Draw mode with ratio lock, every Move event a tracking
    [move] dispatches carries [deltaX = clientX - startX] and a [deltaY]
    of magnitude [|deltaX|] whose sign is the sign of the unlocked
    [deltaY = clientY - startY]: [-|deltaX|] when that is negative,
    [|deltaX|] otherwise. *)
Theorem ratio_lock_follows_unlocked_deltaY
  (st : Tracker) (e : Ev.PointerEvent) (layout : Layout) (em : Emission) :
  activeMode st = Some Draw ->
  ratioLock st = true ->
  tracking (fst (move e layout st)) = true ->
  In em (snd (move e layout st)) ->
  Change.type (emitted em) = Move ->
  let g := Change.geometry (emitted em) in
  deltaX g = clientX g - startX g /\
  Qabs (deltaY g) == Qabs (deltaX g) /\
  (clientY g - startY g < 0 -> deltaY g == - Qabs (deltaX g)) /\
  (0 <= clientY g - startY g -> deltaY g == Qabs (deltaX g)).
Proof.
  intros Hmode Hlock. unfold move.
  destruct ((passive (config st) && negb (Num.truthy (Ev.pressure e)))
            || negb (Ev.isPrimary e)); [intros _ [] |].
  set (rect := layout (relative (config st))).
  set (cx := relativeCoord (config st) (Ev.clientX e) (left rect)).
  set (cy := relativeCoord (config st) (Ev.clientY e) (top rect)).
  destruct (Num.eqb cx (clientX (geometry st))
            && Num.eqb cy (clientY (geometry st))); [intros _ [] |].
  pose proof (move_begin_keeps e (move_locate cx cy rect st)) as Hkeep.
  pose proof (move_begin_emits e (move_locate cx cy rect st) em) as Hstart.
  destruct (move_begin e (move_locate cx cy rect st)) as [st1 started].
  simpl in Hkeep, Hstart. destruct Hkeep as (Hm1 & Hl1 & _).
  simpl. intros Htrack Hin Hty.
  apply in_app_iff in Hin. destruct Hin as [Hin | Hin].
  { exfalso. now apply Hstart. }
  apply dispatch_emitted in Hin. destruct Hin as (_ & -> & _).
  destruct (move_derive_keeps e st1) as (_ & Ht2 & _).
  rewrite Ht2 in Htrack.
  destruct (move_derive_locked_draw e st1 Htrack)
    as (-> & -> & -> & -> & -> & ->); [congruence | congruence |].
  split; [reflexivity |]. split; [apply lockRatio_abs |].
  split; [apply lockRatio_neg | apply lockRatio_nonneg].
Qed.

Lemma ratio_lock_follows_unlocked_deltaY_witness :
  Forall (fun em =>
            let g := Change.geometry (emitted em) in
            deltaX g = clientX g - startX g /\
            Qabs (deltaY g) == Qabs (deltaX g) /\
            (clientY g - startY g < 0 -> deltaY g == - Qabs (deltaX g)) /\
            (0 <= clientY g - startY g -> deltaY g == Qabs (deltaX g)))
    Sample.locked_move.
Proof.
  apply Forall_forall. intros em Hin.
  apply (ratio_lock_follows_unlocked_deltaY Sample.locked_drawing
           (Sample.mouse 60 110) Sample.page em);
    [reflexivity | reflexivity | reflexivity | exact Hin |].
  destruct Hin as [<- | []]. reflexivity.
Defined.

(** C1 as stated fails: with [deltaX = -40] and an unlocked [deltaY] of 10,
    the Move event carries [deltaY = 40], not -40. *)
Lemma ratio_lock_sign_counterexample :
  List.map (fun em => Change.type (emitted em)) Sample.locked_move = [Move] /\
  Forall (fun em =>
            let g := Change.geometry (emitted em) in
            Change.isRatioLocked (emitted em) = true /\
            Change.mode (emitted em) = Some Draw /\
            deltaX g == -40 /\
            clientY g - startY g == 10 /\
            deltaY g == 40 /\
            ~ deltaY g == -40)
    Sample.locked_move.
Proof.
  split; [reflexivity |].
  repeat constructor; try reflexivity; discriminate.
Qed.

(** ** Mode classification *)

Lemma size_values (m : PMap.t) :
  List.length (PMap.values m) = PMap.size m.
Proof. apply length_map. Qed.

(** C9.  With three or more contacts in the registry and a non-negative
    [dragMin], the distance computed is 0 and the classification is
    [undefined]: neither Draw nor Drag. *)
Theorem three_contacts_unclassified
  (pointers : PMap.t) (dragMin dragMax : Q) (space : bool) :
  (3 <= PMap.size pointers)%nat ->
  0 <= dragMin ->
  getPointerDistance pointers = Num.Exact 0 /\
  getPointerMode pointers dragMin dragMax space = None.
Proof.
  intros Hsize Hmin.
  assert (Hdist : getPointerDistance pointers = Num.Exact 0).
  { unfold getPointerDistance.
    destruct (Nat.eqb_spec (PMap.size pointers) 1); [lia |].
    destruct (Nat.eqb_spec (PMap.size pointers) 2); [lia | reflexivity]. }
  split; [exact Hdist |].
  unfold getPointerMode. rewrite Hdist.
  destruct (Nat.eqb_spec (PMap.size pointers) 1); [lia |].
  destruct (Nat.leb_spec 2 (PMap.size pointers)); [| reflexivity].
  simpl. apply NumFacts.ltb_ge in Hmin. rewrite Hmin. reflexivity.
Qed.

Lemma three_contacts_unclassified_witness :
  let pointers :=
    [(1%Z, Sample.finger 0 0); (2%Z, Sample.second_finger 60 0);
     (3%Z, Sample.third_finger 0 60)] in
  getPointerDistance pointers = Num.Exact 0 /\
  getPointerMode pointers 50 125 false = None.
Proof.
  apply three_contacts_unclassified; [simpl; lia | discriminate].
Defined.






(** *** The band on the computed distance *)







(** The default band on computed distances: the edges 50 and 125 are
    outside, also when reached as the hypotenuse of a 30-40 triangle; 51
    and 124 are inside. *)
Example default_band_edges_computed :
  let band x y :=
    Double.getPointerMode (Double.pair (Double.of_Z x) (Double.of_Z y))
      (Double.of_Z 50) (Double.of_Z 125) false in
  (band 50 0 = None /\ band 30 40 = None /\
   band 51 0 = Some Drag /\ band 124 0 = Some Drag /\
   band 125 0 = None /\ band 75 100 = None /\ band 200 0 = None)%Z.
Proof. vm_compute. repeat split. Qed.

(** The band of the default options, evaluated at its edges. *)
Example default_band_edges :
  let two d := [(1%Z, Sample.finger 0 0); (2%Z, Sample.second_finger d 0)] in
  getPointerMode (two 50) 50 125 false = None /\
  getPointerMode (two 51) 50 125 false = Some Drag /\
  getPointerMode (two 90) 50 125 false = Some Drag /\
  getPointerMode (two 124) 50 125 false = Some Drag /\
  getPointerMode (two 125) 50 125 false = None /\
  getPointerMode (two 200) 50 125 false = None.
Proof. repeat split. Qed.

(** ** Movement without a classified mode *)

Lemma move_ignored_spec (e : Ev.PointerEvent) (layout : Layout)
  (st : Tracker) :
  move_ignored e layout st = true -> move e layout st = (st, []).
Proof.
  unfold move_ignored, move.
  destruct ((passive (config st) && negb (Num.truthy (Ev.pressure e)))
            || negb (Ev.isPrimary e)); [reflexivity |].
  simpl. intros ->. reflexivity.
Qed.




Lemma start_classifies (e : Ev.PointerEvent) (st : Tracker) :
  let st' := fst (start e st) in
  pointers st' = PMap.set (Ev.pointerId e) e (pointers st) /\
  activeMode st' =
    getPointerMode (pointers st') (dragMin (config st)) (dragMax (config st))
      (spaceKey st) /\
  tracking st' = tracking st /\ attached st' = attached st.
Proof. unfold start. destruct (Ev.isPrimary e); simpl; auto. Qed.




(** ** Cancel and reset *)

Lemma flush_is_reset (st : Tracker) : is_reset (flush st).
Proof. unfold is_reset. simpl. repeat split. Qed.

(** The Escape path: the Cancel event is dispatched from the state of the
    gesture, then the state is reset. *)
Lemma keydown_escape_resets (e : Ev.KeyboardEvent) (st : Tracker) :
  Ev.key e = "Escape"%string ->
  activeMode st <> None ->
  tracking st = true ->
  snd (keydown e st) = dispatch Cancel st /\ is_reset (fst (keydown e st)).
Proof.
  intros Hkey Hmode Htrack. unfold keydown.
  rewrite Hkey, Htrack. simpl.
  destruct (activeMode st) eqn:Hm; [| congruence]. simpl.
  destruct (String.eqb (Ev.code e) "Space"); simpl; split;
    try reflexivity; apply (flush_is_reset st).
Qed.

(** The pointer-leave path never writes the state. *)
Lemma leave_keeps_state (e : Ev.PointerEvent) (st : Tracker) :
  fst (leave e st) = st.
Proof.
  unfold leave.
  destruct (negb (defined (activeMode st)) || negb (Ev.isPrimary e)
            || negb (tracking st)); reflexivity.
Qed.

(** C2 at its failing input.  A Draw gesture started at (100, 100) is being
    tracked; the pointer leaves the host element.  Cancel is dispatched, and
    the state is left as it was: still tracking, start point (100, 100),
    the contact still registered.  The next movement is reported as part of
    the same gesture, with the start point of the canceled one. *)
Theorem leave_cancel_without_reset :
  let canceled := step Sample.drawing (PointerLeave (Sample.mouse 140 70)) in
  let next :=
    step (fst canceled) (PointerMove (Sample.mouse 150 90) Sample.page) in
  List.map (fun em => Change.type (emitted em)) (snd canceled) = [Cancel] /\
  fst canceled = Sample.drawing /\
  tracking (fst canceled) = true /\
  activeMode (fst canceled) = Some Draw /\
  startX (geometry (fst canceled)) = 100 /\
  startY (geometry (fst canceled)) = 100 /\
  PMap.size (pointers (fst canceled)) = 1%nat /\
  ~ is_reset (fst canceled) /\
  List.map (fun em => (Change.type (emitted em),
                       Change.isDrawing (emitted em),
                       startX (Change.geometry (emitted em)),
                       deltaX (Change.geometry (emitted em))))
    (snd next) = [(Move, true, 100, 50)].
Proof.
  repeat split. intros Hreset.
  destruct Hreset as (_ & _ & _ & _ & _ & _ & _ & _ & Htrack & _).
  discriminate Htrack.
Qed.

(** ** Invariants of a run *)

Lemma run_cons (st : Tracker) (i : Input) (rest : list Input) :
  run st (i :: rest) =
  (fst (run (fst (step st i)) rest),
   snd (step st i) ++ snd (run (fst (step st i)) rest)).
Proof.
  simpl. destruct (step st i) as [st1 out1]. simpl.
  destruct (run st1 rest) as [st2 out2]. reflexivity.
Qed.

Lemma move_keeps (e : Ev.PointerEvent) (layout : Layout) (st : Tracker) :
  let st' := fst (move e layout st) in
  activeMode st' = activeMode st /\ pointers st' = pointers st /\
  attached st' = attached st.
Proof.
  unfold move.
  destruct ((passive (config st) && negb (Num.truthy (Ev.pressure e)))
            || negb (Ev.isPrimary e)); [simpl; auto |].
  destruct (Num.eqb _ (clientX (geometry st)) && Num.eqb _ _);
    [simpl; auto |].
  match goal with
  | |- context [move_begin e ?s] =>
      pose proof (move_begin_keeps e s) as Hb;
      destruct (move_begin e s) as [st1 started]
  end.
  simpl in Hb. destruct Hb as (Hm & _ & Hp & Ha).
  destruct (move_derive_keeps e st1) as (Hm' & _ & Hp' & Ha').
  simpl. repeat split; congruence.
Qed.

Lemma move_tracking (e : Ev.PointerEvent) (layout : Layout) (st : Tracker) :
  tracking (fst (move e layout st)) = true ->
  tracking st = true \/ activeMode st <> None.
Proof.
  unfold move.
  destruct ((passive (config st) && negb (Num.truthy (Ev.pressure e)))
            || negb (Ev.isPrimary e)); [simpl; auto |].
  destruct (Num.eqb _ (clientX (geometry st)) && Num.eqb _ _);
    [simpl; auto |].
  match goal with
  | |- context [move_begin e ?s] =>
      pose proof (move_begin_tracking e s) as Hb;
      destruct (move_begin e s) as [st1 started]
  end.
  destruct (move_derive_keeps e st1) as (_ & Ht & _).
  simpl in *. rewrite Ht. exact Hb.
Qed.

Lemma set_nonempty (k : Z) (v : Ev.PointerEvent) (m : PMap.t) :
  PMap.set k v m <> [].
Proof.
  destruct m as [| [k' v'] rest]; simpl; [discriminate |].
  destruct (k' =? k)%Z; discriminate.
Qed.

(** After [end], the registry is not empty, or the state has been reset. *)
Lemma end_cases (e : Ev.PointerEvent) (st : Tracker) :
  let st' := fst (end_ e st) in
  (is_reset st' /\ attached st' = attached st) \/
  (pointers st' <> [] /\ tracking st' = tracking st /\
   activeMode st' = activeMode st /\
   (defined (activeMode st) && tracking st = false)).
Proof.
  unfold end_.
  set (st1 := set_pointers _ st).
  destruct (defined (activeMode st1) && tracking st1) eqn:Hgo;
    lazy beta iota zeta.
  - left. split; [apply (flush_is_reset (flush st1)) | reflexivity].
  - destruct (PMap.size (pointers st1) =? 0)%nat eqn:Hsize.
    + left. split; [apply (flush_is_reset st1) | reflexivity].
    + right. repeat split; try exact Hgo.
      intros Hnil. simpl in Hnil, Hsize. rewrite Hnil in Hsize.
      discriminate.
Qed.

Lemma keydown_cases (e : Ev.KeyboardEvent) (st : Tracker) :
  let st' := fst (keydown e st) in
  (is_reset st' /\ attached st' = attached st) \/
  (pointers st' = pointers st /\ tracking st' = tracking st /\
   activeMode st' = activeMode st /\ attached st' = attached st).
Proof.
  unfold keydown.
  destruct (String.eqb (Ev.key e) "Escape" && defined (activeMode st)
            && tracking st);
    destruct (String.eqb (Ev.code e) "Space"); simpl;
    [left | left | right | right]; repeat split.
Qed.

Lemma keyup_keeps (e : Ev.KeyboardEvent) (st : Tracker) :
  let st' := fst (keyup e st) in
  pointers st' = pointers st /\ tracking st' = tracking st /\
  activeMode st' = activeMode st /\ attached st' = attached st.
Proof.
  unfold keyup. destruct (String.eqb (Ev.code e) "Space"); simpl; auto.
Qed.

Lemma is_reset_idle (st : Tracker) : is_reset st -> idle_unclassified st.
Proof.
  intros (_ & _ & _ & _ & _ & _ & _ & _ & _ & Hm & _) _ _. exact Hm.
Qed.

Lemma is_reset_not_tracking (st : Tracker) :
  is_reset st -> tracking_classified st.
Proof.
  intros (_ & _ & _ & _ & _ & _ & _ & _ & Ht & _) Htrack. congruence.
Qed.

Lemma step_idle_unclassified (st : Tracker) (i : Input) :
  idle_unclassified st -> idle_unclassified (fst (step st i)).
Proof.
  intros Hinv.
  destruct i as [e | e layout | e | e | e | e | o | | cb | cb];
    unfold step, listen; simpl fst;
    try (destruct (attached st) eqn:Hatt; [| exact Hinv]);
    try exact Hinv.
  - destruct (start_classifies e st) as (Hp & _).
    intros _ Hnil. rewrite Hp in Hnil. now apply set_nonempty in Hnil.
  - destruct (move_keeps e layout st) as (Hm & Hp & Ha).
    unfold idle_unclassified. rewrite Hm, Hp, Ha. exact Hinv.
  - destruct (end_cases e st) as [[Hreset _] | (Hp & _)].
    + now apply is_reset_idle.
    + intros _ Hnil. contradiction.
  - rewrite leave_keeps_state. exact Hinv.
  - destruct (keydown_cases e st) as [[Hreset _] | (Hp & _ & Hm & Ha)].
    + now apply is_reset_idle.
    + unfold idle_unclassified. rewrite Hm, Hp, Ha. exact Hinv.
  - destruct (keyup_keeps e st) as (Hp & _ & Hm & Ha).
    unfold idle_unclassified. rewrite Hm, Hp, Ha. exact Hinv.
  - intros Ha. discriminate Ha.
Qed.

Lemma run_idle_unclassified (inputs : list Input) (st : Tracker) :
  idle_unclassified st -> idle_unclassified (fst (run st inputs)).
Proof.
  revert st. induction inputs as [| i rest IH]; intros st Hinv.
  - exact Hinv.
  - rewrite run_cons. simpl. apply IH, step_idle_unclassified, Hinv.
Qed.

(** C5, amended.  After every sequence of inputs, while the listeners are
    installed, an empty registry implies that Mode is [undefined].  (The
    converse is not claimed.) *)
Theorem empty_registry_unclassified
  (host : Element) (o : Options.t) (inputs : list Input) :
  let st := fst (run (pointer host o) inputs) in
  attached st = true -> pointers st = [] -> activeMode st = None.
Proof.
  apply (run_idle_unclassified inputs (pointer host o)).
  intros _ _. reflexivity.
Qed.

Lemma empty_registry_unclassified_witness :
  let st :=
    fst (run (pointer Sample.host Options.empty)
           (Sample.press_and_track ++ [PointerUp (Sample.mouse 100 100)])) in
  attached st = true /\ pointers st = [] /\ activeMode st = None.
Proof.
  intros st. split; [reflexivity |]. split; [reflexivity |].
  apply (empty_registry_unclassified Sample.host Options.empty
           (Sample.press_and_track ++ [PointerUp (Sample.mouse 100 100)]));
    reflexivity.
Defined.

(** C5 as stated fails in the direction from Mode to registry: after two
    touch contacts 200 px apart, Mode is [undefined] and the registry holds
    both contacts. *)
Lemma unclassified_registry_not_empty_counterexample :
  Sample.wide_touch =
    fst (run (pointer Sample.host Options.empty)
           [PointerDown (Sample.finger 0 0);
            PointerDown (Sample.second_finger 200 0)]) /\
  activeMode Sample.wide_touch = None /\
  PMap.size (pointers Sample.wide_touch) = 2%nat /\
  ~ (activeMode Sample.wide_touch = None <-> pointers Sample.wide_touch = []).
Proof.
  repeat split. intros [Hempty _].
  specialize (Hempty eq_refl). discriminate Hempty.
Qed.

Lemma step_tracking_classified (st : Tracker) (i : Input) :
  tracking_classified st ->
  contacts_stay_classified st [i] = true ->
  tracking_classified (fst (step st i)).
Proof.
  intros Hinv Hguard.
  destruct i as [e | e layout | e | e | e | e | o | | cb | cb];
    unfold step, listen; simpl fst;
    try (destruct (attached st) eqn:Hatt; [| exact Hinv]);
    try exact Hinv.
  - simpl in Hguard. rewrite Hatt, andb_true_r in Hguard. simpl in Hguard.
    destruct (start_classifies e st) as (Hp & Hm & Ht & _).
    intros Htrack. rewrite Ht in Htrack. rewrite Htrack in Hguard.
    simpl in Hguard. rewrite Hm, Hp.
    destruct (getPointerMode _ _ _ _); [discriminate | discriminate Hguard].
  - destruct (move_keeps e layout st) as (Hm & _).
    intros Htrack. rewrite Hm.
    destruct (move_tracking e layout st Htrack) as [Ht | Hdef];
      [now apply Hinv | exact Hdef].
  - destruct (end_cases e st) as [[Hreset _] | (_ & Ht & Hm & _)].
    + now apply is_reset_not_tracking.
    + unfold tracking_classified. rewrite Ht, Hm. exact Hinv.
  - rewrite leave_keeps_state. exact Hinv.
  - destruct (keydown_cases e st) as [[Hreset _] | (_ & Ht & Hm & _)].
    + now apply is_reset_not_tracking.
    + unfold tracking_classified. rewrite Ht, Hm. exact Hinv.
  - destruct (keyup_keeps e st) as (_ & Ht & Hm & _).
    unfold tracking_classified. rewrite Ht, Hm. exact Hinv.
Qed.

Lemma run_tracking_classified (inputs : list Input) (st : Tracker) :
  tracking_classified st ->
  contacts_stay_classified st inputs = true ->
  tracking_classified (fst (run st inputs)).
Proof.
  revert st. induction inputs as [| i rest IH]; intros st Hinv Hguard.
  - exact Hinv.
  - rewrite run_cons. simpl fst.
    simpl in Hguard. apply andb_true_iff in Hguard.
    destruct Hguard as [Hi Hrest].
    apply IH; [| exact Hrest].
    apply step_tracking_classified; [exact Hinv |].
    simpl. rewrite Hi. reflexivity.
Qed.

(** C6, amended.  After every sequence of inputs in which each contact
    that arrives while a gesture is being tracked leaves a registry that
    classifies (one contact, or two contacts within the drag band),
    [tracking = true] implies that Mode is defined. *)
Theorem tracking_implies_mode_defined
  (host : Element) (o : Options.t) (inputs : list Input) :
  contacts_stay_classified (pointer host o) inputs = true ->
  let st := fst (run (pointer host o) inputs) in
  tracking st = true -> activeMode st <> None.
Proof.
  intros Hguard.
  apply (run_tracking_classified inputs (pointer host o)); [| exact Hguard].
  intros Htrack. discriminate Htrack.
Qed.

Lemma tracking_implies_mode_defined_witness :
  let inputs :=
    [PointerDown (Sample.finger 100 100);
     PointerMove (Sample.finger 100 100) Sample.page;
     PointerDown (Sample.second_finger 190 100);
     PointerMove (Sample.finger 140 70) Sample.page] in
  let st := fst (run (pointer Sample.host Options.empty) inputs) in
  contacts_stay_classified (pointer Sample.host Options.empty) inputs = true
  /\ tracking st = true /\ activeMode st <> None.
Proof.
  intros inputs st. split; [reflexivity |]. split; [reflexivity |].
  apply (tracking_implies_mode_defined Sample.host Options.empty inputs);
    reflexivity.
Defined.

(** C6 as stated fails: a Draw gesture is tracked with one finger, a second
    finger lands 200 px away; the gesture is still tracked and Mode is
    [undefined]. *)
Lemma second_contact_mid_gesture_counterexample :
  let st :=
    fst (run (pointer Sample.host Options.empty)
           Sample.second_contact_mid_gesture) in
  tracking st = true /\ activeMode st = None /\
  PMap.size (pointers st) = 2%nat /\
  ~ (tracking st = true -> activeMode st <> None).
Proof.
  repeat split. intros Himp. now apply Himp.
Qed.

(** ** Subscriptions *)

Lemma mem_In (cb : nat) (s : CSet.t) : CSet.mem cb s = true <-> In cb s.
Proof.
  unfold CSet.mem. rewrite existsb_exists. split.
  - intros [c [Hin Heq]]. apply Nat.eqb_eq in Heq. now subst.
  - intros Hin. exists cb. split; [exact Hin | apply Nat.eqb_refl].
Qed.

Lemma add_mem (cb : nat) (s : CSet.t) : CSet.mem cb (CSet.add cb s) = true.
Proof.
  unfold CSet.add. destruct (CSet.mem cb s) eqn:Hmem; [exact Hmem |].
  apply mem_In, in_or_app. right. now left.
Qed.

Lemma add_idempotent (cb : nat) (s : CSet.t) :
  CSet.add cb (CSet.add cb s) = CSet.add cb s.
Proof.
  unfold CSet.add at 1. now rewrite add_mem.
Qed.

Lemma delete_not_In (cb : nat) (s : CSet.t) : ~ In cb (CSet.delete cb s).
Proof.
  unfold CSet.delete. rewrite filter_In. intros [_ Hneq].
  now rewrite Nat.eqb_refl in Hneq.
Qed.

Lemma dispatch_callback (ty : PointerChangeType) (st : Tracker)
  (cb : nat) (event : Change.t) :
  In (Callback cb event) (dispatch ty st) -> In cb (subscribers st).
Proof.
  unfold dispatch. rewrite in_app_iff, in_map_iff.
  intros [[c [Heq Hin]] | [Heq | []]]; [| discriminate Heq].
  now inversion Heq; subst.
Qed.

(** ** [touchOnly] and [mouseOnly] *)

Lemma pointer_erase (host : Element) (o : Options.t) :
  erase_tracker (pointer host o) = pointer host (erase_options o).
Proof. reflexivity. Qed.

Lemma dispatch_erase (ty : PointerChangeType) (st : Tracker) :
  dispatch ty (erase_tracker st) = dispatch ty st.
Proof. reflexivity. Qed.

Lemma flush_erase (st : Tracker) :
  flush (erase_tracker st) = erase_tracker (flush st).
Proof. reflexivity. Qed.

Lemma start_erase (e : Ev.PointerEvent) (st : Tracker) :
  start e (erase_tracker st) =
  (erase_tracker (fst (start e st)), snd (start e st)).
Proof. unfold start. simpl. destruct (Ev.isPrimary e); reflexivity. Qed.

Lemma move_begin_erase (e : Ev.PointerEvent) (st : Tracker) :
  move_begin e (erase_tracker st) =
  (erase_tracker (fst (move_begin e st)), snd (move_begin e st)).
Proof.
  unfold move_begin.
  change (isAcceptable e (erase_tracker st)) with (isAcceptable e st).
  simpl.
  destruct (Num.truthy (Ev.pressure e) && negb (tracking st)
            && isAcceptable e st); reflexivity.
Qed.

Lemma move_derive_erase (e : Ev.PointerEvent) (st : Tracker) :
  move_derive e (erase_tracker st) = erase_tracker (move_derive e st).
Proof.
  unfold move_derive. simpl.
  destruct (tracking st); [| reflexivity].
  destruct (activeMode st) as [[|]|]; try reflexivity.
  destruct (snapOrigin _ _ (originX st)), (snapOrigin _ _ (originY st)).
  reflexivity.
Qed.

Lemma move_erase (e : Ev.PointerEvent) (layout : Layout) (st : Tracker) :
  move e layout (erase_tracker st) =
  (erase_tracker (fst (move e layout st)), snd (move e layout st)).
Proof.
  unfold move.
  change (passive (config (erase_tracker st))) with (passive (config st)).
  destruct ((passive (config st) && negb (Num.truthy (Ev.pressure e)))
            || negb (Ev.isPrimary e)); [reflexivity |].
  change (relative (config (erase_tracker st)))
    with (relative (config st)).
  change (relativeCoord (config (erase_tracker st)))
    with (relativeCoord (config st)).
  change (geometry (erase_tracker st)) with (geometry st).
  destruct (Num.eqb _ (clientX (geometry st)) && Num.eqb _ _);
    [reflexivity |].
  match goal with
  | |- context [move_begin e (move_locate ?cx ?cy ?rect (erase_tracker st))] =>
      change (move_locate cx cy rect (erase_tracker st))
        with (erase_tracker (move_locate cx cy rect st));
      rewrite (move_begin_erase e (move_locate cx cy rect st));
      destruct (move_begin e (move_locate cx cy rect st)) as [st1 started]
  end.
  simpl. rewrite move_derive_erase, dispatch_erase. reflexivity.
Qed.

Lemma end_erase (e : Ev.PointerEvent) (st : Tracker) :
  end_ e (erase_tracker st) =
  (erase_tracker (fst (end_ e st)), snd (end_ e st)).
Proof.
  unfold end_.
  change (set_pointers (PMap.delete (Ev.pointerId e)
                          (pointers (erase_tracker st))) (erase_tracker st))
    with (erase_tracker
            (set_pointers (PMap.delete (Ev.pointerId e) (pointers st)) st)).
  set (st1 := set_pointers _ st).
  change (activeMode (erase_tracker st1)) with (activeMode st1).
  change (tracking (erase_tracker st1)) with (tracking st1).
  destruct (defined (activeMode st1) && tracking st1);
    lazy beta iota zeta.
  - reflexivity.
  - change (pointers (erase_tracker st1)) with (pointers st1).
    destruct (PMap.size (pointers st1) =? 0)%nat; reflexivity.
Qed.

Lemma leave_erase (e : Ev.PointerEvent) (st : Tracker) :
  leave e (erase_tracker st) =
  (erase_tracker (fst (leave e st)), snd (leave e st)).
Proof.
  unfold leave. simpl.
  destruct (negb (defined (activeMode st)) || negb (Ev.isPrimary e)
            || negb (tracking st)); reflexivity.
Qed.

Lemma keydown_erase (e : Ev.KeyboardEvent) (st : Tracker) :
  keydown e (erase_tracker st) =
  (erase_tracker (fst (keydown e st)), snd (keydown e st)).
Proof.
  unfold keydown. simpl.
  destruct (String.eqb (Ev.key e) "Escape" && defined (activeMode st)
            && tracking st);
    destruct (String.eqb (Ev.code e) "Space"); reflexivity.
Qed.

Lemma keyup_erase (e : Ev.KeyboardEvent) (st : Tracker) :
  keyup e (erase_tracker st) =
  (erase_tracker (fst (keyup e st)), snd (keyup e st)).
Proof.
  unfold keyup. destruct (String.eqb (Ev.code e) "Space"); reflexivity.
Qed.

(** One step on the erased state with the erased input: the erased result
    and the same emissions. *)
Lemma step_erase (st : Tracker) (i : Input) :
  step (erase_tracker st) (erase_input i) =
  (erase_tracker (fst (step st i)), snd (step st i)).
Proof.
  destruct i as [e | e layout | e | e | e | e | o | | cb | cb];
    try reflexivity.
  - unfold erase_input, step, listen. simpl attached.
    destruct (attached st); [apply start_erase | reflexivity].
  - unfold erase_input, step, listen. simpl attached.
    destruct (attached st); [apply move_erase | reflexivity].
  - unfold erase_input, step, listen. simpl attached.
    destruct (attached st); [apply end_erase | reflexivity].
  - unfold erase_input, step, listen. simpl attached.
    destruct (attached st); [apply leave_erase | reflexivity].
  - unfold erase_input, step, listen. simpl attached.
    destruct (attached st); [apply keydown_erase | reflexivity].
  - unfold erase_input, step, listen. simpl attached.
    destruct (attached st); [apply keyup_erase | reflexivity].
  - destruct o as [n |]; reflexivity.
Qed.

Lemma run_erase (inputs : list Input) (st : Tracker) :
  run (erase_tracker st) (List.map erase_input inputs) =
  (erase_tracker (fst (run st inputs)), snd (run st inputs)).
Proof.
  revert st. induction inputs as [| i rest IH]; intros st.
  - reflexivity.
  - change (List.map erase_input (i :: rest))
      with (erase_input i :: List.map erase_input rest).
    rewrite !run_cons, step_erase. simpl fst. simpl snd.
    rewrite IH. reflexivity.
Qed.

(** C10.  Two runs of the tracker whose options at construction, and whose
    [update] arguments, differ at most in [touchOnly] and [mouseOnly], and
    whose inputs are otherwise the same, emit the same events to the same
    receivers in the same order: kinds and payloads are identical. *)
Theorem touchOnly_mouseOnly_have_no_effect
  (host : Element) (o1 o2 : Options.t) (inputs1 inputs2 : list Input) :
  erase_options o1 = erase_options o2 ->
  List.map erase_input inputs1 = List.map erase_input inputs2 ->
  snd (run (pointer host o1) inputs1) = snd (run (pointer host o2) inputs2).
Proof.
  intros Ho Hi.
  pose proof (run_erase inputs1 (pointer host o1)) as H1.
  pose proof (run_erase inputs2 (pointer host o2)) as H2.
  rewrite pointer_erase, Ho, Hi in H1.
  rewrite pointer_erase, H1 in H2.
  now inversion H2.
Qed.

Lemma touchOnly_mouseOnly_have_no_effect_witness :
  let inputs1 :=
    Sample.press_and_track
    ++ [Update (Some Sample.mouse_only);
        PointerMove (Sample.mouse 140 70) Sample.page;
        PointerUp (Sample.mouse 140 70)] in
  let inputs2 :=
    Sample.press_and_track
    ++ [Update (Some Options.empty);
        PointerMove (Sample.mouse 140 70) Sample.page;
        PointerUp (Sample.mouse 140 70)] in
  erase_options Sample.touch_only = erase_options Options.empty /\
  List.map erase_input inputs1 = List.map erase_input inputs2 /\
  snd (run (pointer Sample.host Sample.touch_only) inputs1) =
  snd (run (pointer Sample.host Options.empty) inputs2).
Proof.
  intros inputs1 inputs2.
  split; [reflexivity |]. split; [reflexivity |].
  apply touchOnly_mouseOnly_have_no_effect; reflexivity.
Defined.

(** * Further properties of the tracker *)

(** ** Classification of a single contact *)

(** X1.  A registry with exactly one contact always classifies: Drag when
    the space key is held or the contact is a mouse with the middle button,
    Draw otherwise; the drag band plays no part. *)
Theorem single_contact_classifies
  (pointers : PMap.t) (p : Ev.PointerEvent) (dragMin dragMax : Q)
  (space : bool) :
  PMap.values pointers = [p] ->
  getPointerMode pointers dragMin dragMax space =
  Some (single_contact_mode p space).
Proof.
  intros Hval. pose proof (size_values pointers) as Hsize.
  rewrite Hval in Hsize. simpl in Hsize.
  unfold getPointerMode, single_contact_mode.
  rewrite <- Hsize, Hval. simpl.
  destruct space, (String.eqb (Ev.pointerType p) "mouse"),
    (Ev.button p =? Mouse.Middle)%Z; reflexivity.
Qed.

Lemma single_contact_classifies_witness :
  PMap.values [(1%Z, Scenario.middle_press)] = [Scenario.middle_press] /\
  getPointerMode [(1%Z, Scenario.middle_press)] 50 125 false = Some Drag.
Proof.
  split; [reflexivity |].
  apply (single_contact_classifies [(1%Z, Scenario.middle_press)]
           Scenario.middle_press 50 125 false).
  reflexivity.
Defined.

(** ** The contact registry *)

Lemma keys_set_fresh (k : Z) (v : Ev.PointerEvent) (m : PMap.t) :
  ~ In k (keys m) -> PMap.set k v m = m ++ [(k, v)].
Proof.
  induction m as [| [k' v'] rest IH]; simpl; intros Hfresh; [reflexivity |].
  destruct (Z.eqb_spec k' k) as [-> | Hne]; [tauto |].
  rewrite IH by tauto. reflexivity.
Qed.

Lemma keys_set_present (k : Z) (v : Ev.PointerEvent) (m : PMap.t) :
  In k (keys m) -> keys (PMap.set k v m) = keys m.
Proof.
  induction m as [| [k' v'] rest IH]; simpl; intros Hin; [contradiction |].
  destruct (Z.eqb_spec k' k) as [-> | Hne]; [reflexivity |].
  simpl. f_equal. apply IH. destruct Hin; [contradiction | assumption].
Qed.

Lemma keys_set (k : Z) (v : Ev.PointerEvent) (m : PMap.t) :
  keys (PMap.set k v m) = if in_dec Z.eq_dec k (keys m) then keys m
                          else keys m ++ [k].
Proof.
  destruct (in_dec Z.eq_dec k (keys m)) as [Hin | Hfresh].
  - now apply keys_set_present.
  - rewrite keys_set_fresh by assumption. unfold keys.
    now rewrite map_app.
Qed.

Lemma delete_fresh (k : Z) (m : PMap.t) :
  ~ In k (keys m) -> PMap.delete k m = m.
Proof.
  induction m as [| [k' v'] rest IH]; simpl; intros Hfresh; [reflexivity |].
  destruct (Z.eqb_spec k' k) as [-> | Hne]; [tauto |].
  rewrite IH by tauto. reflexivity.
Qed.

Lemma keys_delete_subset (k k' : Z) (m : PMap.t) :
  In k' (keys (PMap.delete k m)) -> In k' (keys m).
Proof.
  induction m as [| [k0 v0] rest IH]; simpl; [tauto |].
  destruct (k0 =? k)%Z; simpl; tauto.
Qed.

Lemma set_NoDup (k : Z) (v : Ev.PointerEvent) (m : PMap.t) :
  NoDup (keys m) -> NoDup (keys (PMap.set k v m)).
Proof.
  intros Hnd. rewrite keys_set.
  destruct (in_dec Z.eq_dec k (keys m)) as [Hin | Hfresh]; [exact Hnd |].
  apply NoDup_app; [exact Hnd | repeat constructor; intros [] |].
  intros x Hx [<- | []]. contradiction.
Qed.

Lemma delete_NoDup (k : Z) (m : PMap.t) :
  NoDup (keys m) -> NoDup (keys (PMap.delete k m)).
Proof.
  induction m as [| [k0 v0] rest IH]; simpl; intros Hnd; [constructor |].
  inversion Hnd as [| ? ? Hnotin Hrest]; subst.
  destruct (k0 =? k)%Z; [exact Hrest |].
  simpl. constructor; [| now apply IH].
  intros Hin. apply Hnotin. now apply keys_delete_subset in Hin.
Qed.

Lemma delete_removes (k : Z) (m : PMap.t) :
  NoDup (keys m) -> ~ In k (keys (PMap.delete k m)).
Proof.
  induction m as [| [k0 v0] rest IH]; simpl; intros Hnd; [tauto |].
  inversion Hnd as [| ? ? Hnotin Hrest]; subst.
  destruct (Z.eqb_spec k0 k) as [-> | Hne]; [exact Hnotin |].
  simpl. intros [Heq | Hin]; [contradiction | now apply IH in Hin].
Qed.

(** The registry behaves as a map in insertion order.  Registering a new
    identifier appends the contact, and removing it again restores the
    registry.  Registering a present identifier keeps the number and the
    order of the contacts, and the new event is among the values. *)
Lemma registry_set_delete
  (k : Z) (v : Ev.PointerEvent) (m : PMap.t) :
  (~ In k (keys m) ->
   PMap.set k v m = m ++ [(k, v)] /\ PMap.delete k (PMap.set k v m) = m) /\
  (In k (keys m) ->
   keys (PMap.set k v m) = keys m /\
   PMap.size (PMap.set k v m) = PMap.size m) /\
  In v (PMap.values (PMap.set k v m)).
Proof.
  split; [| split].
  - intros Hfresh. rewrite keys_set_fresh by assumption.
    split; [reflexivity |].
    induction m as [| [k' v'] rest IH]; simpl.
    + now rewrite Z.eqb_refl.
    + simpl in Hfresh. destruct (Z.eqb_spec k' k) as [-> | Hne]; [tauto |].
      rewrite IH by tauto. reflexivity.
  - intros Hin. pose proof (keys_set_present k v m Hin) as Hkeys.
    split; [exact Hkeys |].
    unfold PMap.size. rewrite <- (length_map fst (PMap.set k v m)).
    rewrite <- (length_map fst m). unfold keys in Hkeys. now rewrite Hkeys.
  - induction m as [| [k' v'] rest IH]; simpl; [now left |].
    destruct (k' =? k)%Z; simpl; [now left | now right].
Qed.

(** ** What [move] writes *)

Lemma set_geometry_same (st : Tracker) :
  set_geometry (geometry st) (tracking st) st = st.
Proof. destruct st; reflexivity. Qed.

Lemma move_begin_frame (e : Ev.PointerEvent) (st : Tracker) :
  let st' := fst (move_begin e st) in
  st' = set_geometry (geometry st') (tracking st') st.
Proof.
  unfold move_begin.
  destruct (Num.truthy (Ev.pressure e) && negb (tracking st)
            && isAcceptable e st); simpl.
  - reflexivity.
  - symmetry. apply set_geometry_same.
Qed.

Lemma move_derive_frame (e : Ev.PointerEvent) (st : Tracker) :
  let st' := move_derive e st in
  st' = set_geometry (geometry st') (tracking st') st.
Proof.
  unfold move_derive.
  destruct (tracking st) eqn:Ht;
    [| simpl; symmetry; apply set_geometry_same].
  destruct (activeMode st) as [[|]|];
    [| reflexivity | simpl; symmetry; apply set_geometry_same].
  destruct (snapOrigin _ _ (originX st)), (snapOrigin _ _ (originY st)).
  reflexivity.
Qed.

Lemma move_writes_only_geometry_aux
  (e : Ev.PointerEvent) (layout : Layout) (st : Tracker) :
  let st' := fst (move e layout st) in
  st' = set_geometry (geometry st') (tracking st') st.
Proof.
  unfold move.
  destruct ((passive (config st) && negb (Num.truthy (Ev.pressure e)))
            || negb (Ev.isPrimary e));
    [simpl; symmetry; apply set_geometry_same |].
  destruct (Num.eqb _ (clientX (geometry st)) && Num.eqb _ _);
    [simpl; symmetry; apply set_geometry_same |].
  match goal with
  | |- context [move_begin e ?s] =>
      pose proof (move_begin_frame e s) as Hb;
      destruct (move_begin e s) as [st1 started]
  end.
  pose proof (move_derive_frame e st1) as Hd.
  simpl in *. rewrite Hd. rewrite Hb at 3. reflexivity.
Qed.

(** X2.  A [pointermove] writes the geometry and the tracking flag and
    nothing else: options, configuration, anchors, ratio lock, space flag,
    Mode, target, registry, subscribers and listeners are as before. *)
Theorem move_writes_only_geometry
  (e : Ev.PointerEvent) (layout : Layout) (st : Tracker) :
  let st' := fst (move e layout st) in
  st' = set_geometry (geometry st') (tracking st') st.
Proof. exact (move_writes_only_geometry_aux e layout st). Qed.

Lemma eqb_refl (a : Q) : Num.eqb a a = true.
Proof. apply Qeq_bool_refl. Qed.

Lemma move_client (e : Ev.PointerEvent) (layout : Layout) (st : Tracker) :
  move_ignored e layout st = false ->
  let st' := fst (move e layout st) in
  let rect := layout (relative (config st)) in
  clientX (geometry st')
  = relativeCoord (config st) (Ev.clientX e) (left rect) /\
  clientY (geometry st')
  = relativeCoord (config st) (Ev.clientY e) (top rect).
Proof.
  unfold move_ignored, move.
  destruct ((passive (config st) && negb (Num.truthy (Ev.pressure e)))
            || negb (Ev.isPrimary e)); [discriminate |].
  simpl orb. intros ->.
  set (rect := layout (relative (config st))).
  set (cx := relativeCoord (config st) (Ev.clientX e) (left rect)).
  set (cy := relativeCoord (config st) (Ev.clientY e) (top rect)).
  assert (Hb : clientX (geometry (fst (move_begin e
                 (move_locate cx cy rect st)))) = cx /\
               clientY (geometry (fst (move_begin e
                 (move_locate cx cy rect st)))) = cy).
  { unfold move_begin.
    destruct (Num.truthy (Ev.pressure e) && _ && _); simpl; auto. }
  destruct (move_begin e (move_locate cx cy rect st)) as [st1 started].
  simpl in *. destruct Hb as [Hx Hy].
  unfold move_derive.
  destruct (tracking st1); [| auto].
  destruct (activeMode st1) as [[|]|]; simpl; auto.
  destruct (snapOrigin _ _ (originX st1)), (snapOrigin _ _ (originY st1)).
  simpl. auto.
Qed.

(** X3.  On a tracker whose [deltaScale] is not zero, a [pointermove] that
    repeats the last one is dropped: handling the same event under the same
    layout a second time changes nothing and dispatches nothing.  (With a
    scale of zero the client position can be [0 / 0], which no position is
    equal to.) *)
Theorem repeated_move_is_dropped
  (e : Ev.PointerEvent) (layout : Layout) (st : Tracker) :
  ~ deltaScale (config st) == 0 ->
  move e layout (fst (move e layout st)) = (fst (move e layout st), []).
Proof.
  intros _.
  destruct (move_ignored e layout st) eqn:Hign.
  - rewrite (move_ignored_spec e layout st Hign). simpl.
    apply move_ignored_spec, Hign.
  - apply move_ignored_spec.
    destruct (move_client e layout st Hign) as [Hx Hy].
    pose proof (f_equal config (move_writes_only_geometry_aux e layout st))
      as Hcfg.
    simpl in Hcfg, Hx, Hy.
    unfold move_ignored. rewrite Hcfg, Hx, Hy, !eqb_refl.
    apply orb_true_r.
Qed.

Lemma repeated_move_is_dropped_witness :
  let e := Sample.mouse 60 110 in
  let moved := move e Sample.page Sample.drawing in
  ~ deltaScale (config Sample.drawing) == 0 /\
  snd moved <> [] /\
  move e Sample.page (fst moved) = (fst moved, []).
Proof.
  intros e moved.
  assert (Hscale : ~ deltaScale (config Sample.drawing) == 0)
    by (intros H; discriminate H).
  split; [exact Hscale |].
  split; [intros H; apply (f_equal (@List.length _)) in H;
          vm_compute in H; discriminate H |].
  exact (repeated_move_is_dropped e Sample.page Sample.drawing Hscale).
Defined.

(** ** When tracking starts *)

Lemma kinds_dispatch (ty : PointerChangeType) (st : Tracker) :
  kinds (dispatch ty st) = List.repeat ty (receivers st).
Proof.
  unfold kinds, dispatch, receivers.
  rewrite map_app, map_map. simpl.
  induction (subscribers st) as [| cb rest IH]; simpl; [reflexivity |].
  now rewrite IH.
Qed.

Lemma kinds_app (a b : list Emission) : kinds (a ++ b) = kinds a ++ kinds b.
Proof. apply map_app. Qed.

Lemma deliveries_dispatch (ty : PointerChangeType) (st : Tracker) :
  deliveries (dispatch ty st) = to_all ty st.
Proof.
  unfold deliveries, dispatch, to_all, audience.
  rewrite !map_app, !map_map. reflexivity.
Qed.

Lemma deliveries_app (a b : list Emission) :
  deliveries (a ++ b) = deliveries a ++ deliveries b.
Proof. apply map_app. Qed.

(** The receivers depend on the subscribers and the host element only. *)
Lemma to_all_frame (ty : PointerChangeType) (st st' : Tracker) :
  subscribers st' = subscribers st -> element st' = element st ->
  to_all ty st' = to_all ty st.
Proof. unfold to_all, audience. now intros -> ->. Qed.

Lemma dispatch_event (ty : PointerChangeType) (st : Tracker)
  (em : Emission) :
  In em (dispatch ty st) ->
  Change.type (emitted em) = ty /\
  Change.geometry (emitted em) = geometry st /\
  Change.originX (emitted em) = originX st /\
  Change.originY (emitted em) = originY st /\
  Change.isRatioLocked (emitted em) = ratioLock st /\
  Change.mode (emitted em) = activeMode st /\
  Change.isDrawing (emitted em) = tracking st && is_mode Draw (activeMode st)
  /\
  Change.isDragging (emitted em) = tracking st && is_mode Drag (activeMode st)
  /\
  Change.isMoving (emitted em) = match ty with Move => true | _ => false end
  /\
  Change.target (emitted em) = activeTarget st.
Proof.
  unfold dispatch. rewrite in_app_iff, in_map_iff.
  intros [[cb [<- _]] | [<- | []]]; simpl; repeat split.
Qed.

(** [move] past its two early returns. *)
Lemma move_run (e : Ev.PointerEvent) (layout : Layout) (st : Tracker) :
  move_ignored e layout st = false ->
  let rect := layout (relative (config st)) in
  let cx := relativeCoord (config st) (Ev.clientX e) (left rect) in
  let cy := relativeCoord (config st) (Ev.clientY e) (top rect) in
  let begun := move_begin e (move_locate cx cy rect st) in
  move e layout st =
  (move_derive e (fst begun),
   snd begun ++ dispatch Move (move_derive e (fst begun))).
Proof.
  unfold move_ignored, move.
  destruct ((passive (config st) && negb (Num.truthy (Ev.pressure e)))
            || negb (Ev.isPrimary e)); [discriminate |].
  simpl orb. intros ->. simpl.
  destruct (move_begin e _) as [st1 started]. reflexivity.
Qed.

(** X4.  A [pointermove] starts tracking exactly when it is not dropped,
    carries pressure and the classified Mode is acceptable (defined, and
    equal to the mode filter unless no filter is set or the space key is
    held).  It then calls every subscriber, in subscription order, and
    then the host element with the gesture-start event of the Mode, and
    after that calls them all again, in the same order, with the Move
    event; nobody else is called. *)
Theorem tracking_starts_iff
  (e : Ev.PointerEvent) (layout : Layout) (st : Tracker) :
  tracking st = false ->
  let started :=
    negb (move_ignored e layout st) && Num.truthy (Ev.pressure e)
    && isAcceptable e st in
  tracking (fst (move e layout st)) = started /\
  (started = true ->
   deliveries (snd (move e layout st)) =
   to_all (getEventType (activeMode st) false) st ++ to_all Move st).
Proof.
  intros Htrack.
  destruct (move_ignored e layout st) eqn:Hign.
  - rewrite (move_ignored_spec e layout st Hign). simpl.
    split; [exact Htrack | discriminate].
  - rewrite (move_run e layout st Hign). simpl negb. simpl andb.
    set (located := move_locate _ _ _ st).
    assert (Hb : move_begin e located =
                 if Num.truthy (Ev.pressure e) && isAcceptable e st
                 then (fst (move_begin e located), snd (move_begin e located))
                 else (located, [])).
    { unfold move_begin.
      change (tracking located) with (tracking st).
      change (isAcceptable e located) with (isAcceptable e st).
      rewrite Htrack. simpl negb. rewrite andb_true_r.
      destruct (Num.truthy (Ev.pressure e) && isAcceptable e st);
        reflexivity. }
    destruct (move_derive_keeps e (fst (move_begin e located)))
      as (_ & Ht & _).
    simpl fst. simpl snd. rewrite Ht.
    destruct (Num.truthy (Ev.pressure e) && isAcceptable e st) eqn:Hgo.
    + assert (Hstart : move_begin e located =
                (set_geometry (geometry (fst (move_begin e located))) true
                   located,
                 dispatch (getEventType (activeMode st) false)
                   (fst (move_begin e located)))).
      { unfold move_begin.
        change (tracking located) with (tracking st).
        change (isAcceptable e located) with (isAcceptable e st).
        rewrite Htrack. simpl negb. rewrite andb_true_r, Hgo.
        reflexivity. }
      split.
      * rewrite Hstart at 1. reflexivity.
      * intros _. rewrite deliveries_app, deliveries_dispatch.
        rewrite Hstart at 1. simpl snd. rewrite deliveries_dispatch.
        pose proof (move_begin_frame e located) as Hr1.
        pose proof (move_derive_frame e (fst (move_begin e located)))
          as Hr2.
        cbv zeta in Hr1, Hr2.
        assert (Hbegun : forall ty,
                  to_all ty (fst (move_begin e located)) = to_all ty st).
        { intros ty. apply to_all_frame; rewrite Hr1; reflexivity. }
        assert (Hderived : forall ty,
                  to_all ty (move_derive e (fst (move_begin e located)))
                  = to_all ty st).
        { intros ty. rewrite <- (Hbegun ty).
          apply to_all_frame; rewrite Hr2; reflexivity. }
        rewrite Hbegun, Hderived. reflexivity.
    + rewrite Hb. simpl. split; [exact Htrack | discriminate].
Qed.

Lemma tracking_starts_iff_witness :
  let st := Scenario.observed_press in
  let moved := move (Sample.mouse 100 100) Sample.page st in
  tracking st = false /\
  tracking (fst moved) = true /\
  deliveries (snd moved)
  = [(ToSubscriber 3%nat, DrawStart); (ToSubscriber 4%nat, DrawStart);
     (ToHost Sample.host, DrawStart);
     (ToSubscriber 3%nat, Move); (ToSubscriber 4%nat, Move);
     (ToHost Sample.host, Move)].
Proof.
  intros st moved.
  destruct (tracking_starts_iff (Sample.mouse 100 100) Sample.page
              st eq_refl) as [Htrack Hcalls].
  split; [reflexivity |]. split; [exact Htrack | exact (Hcalls eq_refl)].
Defined.

(** ** The geometry after a move *)

Lemma move_derive_geometry (e : Ev.PointerEvent) (st : Tracker) :
  tracking st = true ->
  let g := geometry st in
  let g' := geometry (move_derive e st) in
  clientX g' = clientX g /\ clientY g' = clientY g /\
  startX g' = startX g /\ startY g' = startY g /\
  derived e st g g'.
Proof.
  intros Ht. unfold move_derive, derived. rewrite Ht.
  destruct (activeMode st) as [[|]|].
  - destruct (snapOrigin _ _ (originX st)) eqn:Hx.
    destruct (snapOrigin _ _ (originY st)) eqn:Hy.
    simpl. rewrite Hx, Hy. repeat split.
  - simpl. repeat split.
  - simpl. repeat split.
Qed.

Lemma move_begin_geometry (e : Ev.PointerEvent) (st : Tracker) :
  let g := geometry st in
  let st' := fst (move_begin e st) in
  let g' := geometry st' in
  clientX g' = clientX g /\ clientY g' = clientY g /\
  deltaX g' = deltaX g /\ deltaY g' = deltaY g /\
  rectangle g' = rectangle g /\
  (startX g', startY g') =
  (if tracking st then (startX g, startY g)
   else if tracking st' then
     (if is_mode Draw (activeMode st) then (clientX g, clientY g)
      else (Ev.clientX e, Ev.clientY e))
   else (startX g, startY g)).
Proof.
  unfold move_begin.
  destruct (tracking st) eqn:Ht.
  - rewrite andb_false_r. simpl. repeat split.
  - destruct (Num.truthy (Ev.pressure e) && negb false && isAcceptable e st);
      simpl.
    + destruct (is_mode Draw (activeMode st)); repeat split.
    + rewrite ?Ht. repeat split.
Qed.

Lemma move_geometry_aux
  (e : Ev.PointerEvent) (layout : Layout) (st : Tracker) :
  move_ignored e layout st = false ->
  let st' := fst (move e layout st) in
  let g := geometry st in
  let g' := geometry st' in
  tracking st' = true ->
  (startX g', startY g') =
  (if tracking st then (startX g, startY g)
   else if is_mode Draw (activeMode st) then (clientX g', clientY g')
   else (Ev.clientX e, Ev.clientY e)) /\
  derived e st g g'.
Proof.
  intros Hign. rewrite (move_run e layout st Hign). simpl fst.
  set (located := move_locate _ _ _ st).
  intros st' g g' Htrack. subst st' g g'.
  destruct (move_derive_keeps e (fst (move_begin e located))) as (_ & Ht & _).
  rewrite Ht in Htrack.
  destruct (move_derive_geometry e (fst (move_begin e located)) Htrack)
    as (Hcx & Hcy & Hsx & Hsy & Hd).
  destruct (move_begin_geometry e located)
    as (Hbx & Hby & Hdx & Hdy & Hrect & Hstart).
  destruct (move_begin_keeps e located) as (Hm & Hl & _).
  pose proof (f_equal originX (move_begin_frame e located)) as Hox.
  pose proof (f_equal originY (move_begin_frame e located)) as Hoy.
  simpl in Hcx, Hcy, Hsx, Hsy, Hbx, Hby, Hdx, Hdy, Hrect, Hstart, Hm, Hl,
    Hox, Hoy.
  rewrite Htrack in Hstart.
  split.
  - rewrite Hsx, Hsy, Hcx, Hcy, Hbx, Hby. exact Hstart.
  - unfold derived in *. rewrite Hm, Hl, Hox, Hoy in Hd.
    simpl in Hd. rewrite Hdx, Hdy, Hrect in Hd. exact Hd.
Qed.

(** X5.  After a [pointermove] that is not dropped and leaves a gesture
    tracked: the start point is the one of the state when it was already
    tracking, and otherwise the new client position in Draw mode and the
    raw screen position of the event in Drag mode.  In Draw mode the deltas
    are client position minus start point ([deltaY] ratio-locked when the
    lock is on) and the rectangle is [snapOrigin] of start point and deltas
    on each axis; in Drag mode the deltas are the raw screen position minus
    the start point and the rectangle is not written. *)
Theorem move_geometry
  (e : Ev.PointerEvent) (layout : Layout) (st : Tracker) :
  move_ignored e layout st = false ->
  let st' := fst (move e layout st) in
  let g := geometry st in
  let g' := geometry st' in
  tracking st' = true ->
  (startX g', startY g') =
  (if tracking st then (startX g, startY g)
   else if is_mode Draw (activeMode st) then (clientX g', clientY g')
   else (Ev.clientX e, Ev.clientY e)) /\
  derived e st g g'.
Proof. exact (move_geometry_aux e layout st). Qed.

Lemma move_geometry_witness :
  let e := Sample.finger 130 140 in
  let st' := fst (move e Sample.page Scenario.dragging) in
  move_ignored e Sample.page Scenario.dragging = false /\
  tracking st' = true /\
  activeMode Scenario.dragging = Some Drag /\
  (startX (geometry st'), startY (geometry st')) = (110, 105) /\
  derived e Scenario.dragging (geometry Scenario.dragging) (geometry st').
Proof.
  intros e st'.
  destruct (move_geometry e Sample.page Scenario.dragging eq_refl eq_refl)
    as [Hstart Hderived].
  split; [reflexivity |]. split; [reflexivity |]. split; [reflexivity |].
  split; [exact Hstart | exact Hderived].
Defined.

Lemma snapOrigin_snd (S D : Q) (origin : Origin) :
  snd (snapOrigin S D origin) = snapped_size D origin.
Proof. destruct origin; reflexivity. Qed.

Lemma snapOrigin_rest (S D : Q) (origin : Origin) :
  D == 0 ->
  fst (snapOrigin S D origin) == S /\ snd (snapOrigin S D origin) == 0.
Proof.
  intros HD. pose proof (Qabs_zero D HD) as Habs.
  assert (Hlt : Num.ltb D 0 = false).
  { apply NumFacts.ltb_ge. rewrite HD. apply Qle_refl. }
  destruct origin; simpl; rewrite ?Hlt, Habs; split; try reflexivity; field.
Qed.

(** X6.  With a scale, a zoom factor, a screen position and a rectangle
    origin of ordinary magnitude (scale at least 2^-64, the others at most
    2^256 in absolute value, so that the client position is a finite
    number), the move that starts a gesture reports no movement: both
    deltas are 0, and in Draw mode the rectangle has size 0 and sits at the
    start point, whatever the anchors and the ratio lock. *)
Theorem gesture_starts_at_rest
  (e : Ev.PointerEvent) (layout : Layout) (st : Tracker) :
  tracking st = false ->
  ordinary (config st) (Ev.clientX e) (left (layout (relative (config st))))
  ->
  ordinary (config st) (Ev.clientY e) (top (layout (relative (config st))))
  ->
  let st' := fst (move e layout st) in
  let g' := geometry st' in
  tracking st' = true ->
  deltaX g' == 0 /\ deltaY g' == 0 /\
  (activeMode st = Some Draw ->
   clientLeft g' == startX g' /\ clientTop g' == startY g' /\
   clientWidth g' == 0 /\ clientHeight g' == 0).
Proof.
  intros Htrack _ _ st' g' Hafter. subst st' g'.
  destruct (move_ignored e layout st) eqn:Hign.
  { rewrite (move_ignored_spec e layout st Hign) in Hafter.
    simpl in Hafter. congruence. }
  destruct (move_tracking e layout st Hafter) as [Ht | Hmode];
    [congruence |].
  destruct (move_geometry_aux e layout st Hign Hafter) as [Hstart Hd].
  rewrite Htrack in Hstart. unfold derived in Hd.
  destruct (activeMode st) as [[|]|] eqn:Hm; [| | congruence].
  - simpl in Hstart. inversion Hstart as [[Hsx Hsy]].
    destruct Hd as (HdX & HdY & Hx & Hy).
    assert (HX : deltaX (geometry (fst (move e layout st))) == 0).
    { rewrite HdX, Hsx. ring. }
    assert (HY : deltaY (geometry (fst (move e layout st))) == 0).
    { rewrite HdY, Hsy. destruct (ratioLock st); [| ring].
      rewrite lockRatio_nonneg.
      - apply Qabs_zero. rewrite Hsx. ring.
      - rewrite <- Hsy. lraQ. }
    split; [exact HX |]. split; [exact HY |]. intros _.
    destruct (snapOrigin_rest
                (startX (geometry (fst (move e layout st))))
                _ (originX st) HX) as [Hl Hw].
    destruct (snapOrigin_rest
                (startY (geometry (fst (move e layout st))))
                _ (originY st) HY) as [Ht' Hh].
    rewrite <- Hx in Hl, Hw. rewrite <- Hy in Ht', Hh. simpl in *.
    auto.
  - simpl in Hstart. inversion Hstart as [[Hsx Hsy]].
    destruct Hd as (HdX & HdY & _).
    split; [rewrite HdX, Hsx; ring |].
    split; [rewrite HdY, Hsy; ring | discriminate].
Qed.

Lemma gesture_starts_at_rest_witness :
  let e := Sample.mouse 100 100 in
  let st := Scenario.pressed in
  let st' := fst (move e Sample.page st) in
  let g' := geometry st' in
  tracking st = false /\
  ordinary (config st) (Ev.clientX e)
    (left (Sample.page (relative (config st)))) /\
  ordinary (config st) (Ev.clientY e)
    (top (Sample.page (relative (config st)))) /\
  tracking st' = true /\
  deltaX g' == 0 /\ deltaY g' == 0 /\
  clientLeft g' == startX g' /\ clientTop g' == startY g' /\
  clientWidth g' == 0 /\ clientHeight g' == 0.
Proof.
  intros e st st' g'.
  assert (HordX : ordinary (config st) (Ev.clientX e)
                    (left (Sample.page (relative (config st)))))
    by (repeat split; apply Qle_bool_iff; vm_compute; reflexivity).
  assert (HordY : ordinary (config st) (Ev.clientY e)
                    (top (Sample.page (relative (config st)))))
    by (repeat split; apply Qle_bool_iff; vm_compute; reflexivity).
  destruct (gesture_starts_at_rest e Sample.page st eq_refl HordX HordY
              eq_refl) as (HX & HY & Hrect).
  split; [reflexivity |]. split; [exact HordX |]. split; [exact HordY |].
  split; [reflexivity |].
  split; [exact HX |]. split; [exact HY |]. exact (Hrect eq_refl).
Defined.

(** X7.  With the ratio lock on and both anchors of the same kind (both
    center, or neither), every tracked Draw move leaves a square: the width
    and the height of the rectangle are equal. *)
Theorem ratio_lock_draws_square
  (e : Ev.PointerEvent) (layout : Layout) (st : Tracker) :
  move_ignored e layout st = false ->
  activeMode st = Some Draw ->
  ratioLock st = true ->
  is_center (originX st) = is_center (originY st) ->
  let g' := geometry (fst (move e layout st)) in
  tracking (fst (move e layout st)) = true ->
  clientWidth g' == clientHeight g'.
Proof.
  intros Hign Hm Hl Hsame g' Hafter. subst g'.
  destruct (move_geometry_aux e layout st Hign Hafter) as [_ Hd].
  unfold derived in Hd. rewrite Hm, Hl in Hd.
  destruct Hd as (HdX & HdY & Hx & Hy).
  apply (f_equal snd) in Hx. apply (f_equal snd) in Hy.
  rewrite snapOrigin_snd in Hx, Hy. simpl in Hx, Hy.
  rewrite Hx, Hy, HdY.
  assert (Habs : Qabs (lockRatio
                         (clientX (geometry (fst (move e layout st)))
                          - startX (geometry (fst (move e layout st))))
                         (clientY (geometry (fst (move e layout st)))
                          - startY (geometry (fst (move e layout st)))))
                 == Qabs (deltaX (geometry (fst (move e layout st))))).
  { rewrite HdX. apply lockRatio_abs. }
  unfold snapped_size.
  destruct (originX st), (originY st); try discriminate Hsame;
    rewrite Habs; reflexivity.
Qed.

Lemma ratio_lock_draws_square_witness :
  let e := Sample.mouse 60 110 in
  let g' := geometry (fst (move e Sample.page Sample.locked_drawing)) in
  move_ignored e Sample.page Sample.locked_drawing = false /\
  clientWidth g' == 40 /\ clientHeight g' == 40.
Proof.
  intros e g'.
  pose proof (ratio_lock_draws_square e Sample.page Sample.locked_drawing
                eq_refl eq_refl eq_refl eq_refl eq_refl) as Hsquare.
  split; [reflexivity |].
  split; [reflexivity |].
  apply (Qeq_trans _ (clientWidth g')); [apply Qeq_sym, Hsquare | reflexivity].
Defined.

(** ** The end of a gesture *)

Lemma is_mode_defined (m : option PointerMode) :
  defined m = is_mode Draw m || is_mode Drag m.
Proof. destruct m as [[|]|]; reflexivity. Qed.

Lemma end_tracked (e : Ev.PointerEvent) (st : Tracker) :
  defined (activeMode st) && tracking st = true ->
  end_ e st =
  (flush (flush (released e st)),
   dispatch (getEventType (activeMode st) true) (released e st)
   ++ dispatch Up (flush (released e st))).
Proof.
  intros Hgo. unfold end_. fold (released e st).
  change (activeMode (released e st)) with (activeMode st).
  change (tracking (released e st)) with (tracking st).
  rewrite Hgo. reflexivity.
Qed.

Lemma end_untracked (e : Ev.PointerEvent) (st : Tracker) :
  defined (activeMode st) && tracking st = false ->
  end_ e st =
  if (PMap.size (pointers (released e st)) =? 0)%nat
  then (flush (released e st), dispatch Up (released e st))
  else (released e st, []).
Proof.
  intros Hgo. unfold end_. fold (released e st).
  change (activeMode (released e st)) with (activeMode st).
  change (tracking (released e st)) with (tracking st).
  rewrite Hgo. reflexivity.
Qed.

(** X9.  Any [pointerup] during a tracked gesture with a classified Mode
    ends it, whichever contact is lifted and however many remain: every
    subscriber, in subscription order, and then the host element are
    called with the End event of the Mode, carrying the geometry and the
    Mode of the gesture, and after that they are all called again, in the
    same order, with an Up event, carrying no Mode, no target and zero
    deltas; nobody else is called, the state is then reset and the registry
    is empty. *)
Theorem tracked_gesture_ends (e : Ev.PointerEvent) (st : Tracker) :
  activeMode st <> None ->
  tracking st = true ->
  let out := snd (end_ e st) in
  deliveries out =
    to_all (getEventType (activeMode st) true) st ++ to_all Up st /\
  Forall (fun em =>
            let ev := emitted em in
            (Change.type ev <> Up /\
             Change.geometry ev = geometry st /\
             Change.mode ev = activeMode st /\
             Change.isDrawing ev || Change.isDragging ev = true) \/
            (Change.type ev = Up /\
             Change.mode ev = None /\ Change.target ev = None /\
             deltaX (Change.geometry ev) = 0 /\
             deltaY (Change.geometry ev) = 0 /\
             Change.isDrawing ev || Change.isDragging ev = false)) out /\
  is_reset (fst (end_ e st)).
Proof.
  intros Hmode Htrack.
  assert (Hgo : defined (activeMode st) && tracking st = true).
  { rewrite Htrack. destruct (activeMode st); [reflexivity | congruence]. }
  rewrite (end_tracked e st Hgo). simpl fst. simpl snd.
  split; [| split].
  - rewrite deliveries_app, !deliveries_dispatch. reflexivity.
  - apply Forall_app. split; apply Forall_forall; intros em Hin;
      apply dispatch_event in Hin;
      destruct Hin as (Hty & Hg & _ & _ & _ & Hm & Hdraw & Hdrag & _ & Htg).
    + left. rewrite Hty, Hg, Hm, Hdraw, Hdrag.
      change (tracking (released e st)) with (tracking st).
      change (activeMode (released e st)) with (activeMode st).
      rewrite Htrack. simpl andb. rewrite <- is_mode_defined.
      repeat split.
      * destruct (activeMode st) as [[|]|]; simpl; congruence.
      * destruct (activeMode st); [reflexivity | congruence].
    + right. rewrite Hty, Hg, Hm, Hdraw, Hdrag, Htg. repeat split.
  - apply (flush_is_reset (flush (released e st))).
Qed.

Lemma tracked_gesture_ends_witness :
  let e := Sample.mouse 140 70 in
  let st := Scenario.observed_drawing in
  activeMode st <> None /\
  tracking st = true /\
  deliveries (snd (end_ e st))
  = [(ToSubscriber 3%nat, DrawEnd); (ToSubscriber 4%nat, DrawEnd);
     (ToHost Sample.host, DrawEnd);
     (ToSubscriber 3%nat, Up); (ToSubscriber 4%nat, Up);
     (ToHost Sample.host, Up)] /\
  is_reset (fst (end_ e st)).
Proof.
  intros e st.
  assert (Hmode : activeMode st <> None) by discriminate.
  destruct (tracked_gesture_ends e st Hmode eq_refl)
    as (Hcalls & _ & Hreset).
  split; [exact Hmode |]. split; [reflexivity |].
  split; [exact Hcalls | exact Hreset].
Defined.

(** X10.  A [pointerup] outside a tracked gesture: when other contacts
    remain registered, the contact is removed, nobody is called and Mode is
    left as it was classified, without a new classification; when none
    remains, every subscriber, in subscription order, and then the host
    element are called once with an Up event, carrying the geometry and the
    Mode from before, nobody else is called, and the state is reset. *)
Theorem untracked_pointerup (e : Ev.PointerEvent) (st : Tracker) :
  defined (activeMode st) && tracking st = false ->
  (PMap.delete (Ev.pointerId e) (pointers st) <> [] ->
   end_ e st = (released e st, []) /\
   activeMode (fst (end_ e st)) = activeMode st) /\
  (PMap.delete (Ev.pointerId e) (pointers st) = [] ->
   deliveries (snd (end_ e st)) = to_all Up st /\
   Forall (fun em => Change.geometry (emitted em) = geometry st /\
                     Change.mode (emitted em) = activeMode st)
     (snd (end_ e st)) /\
   is_reset (fst (end_ e st))).
Proof.
  intros Hgo. rewrite (end_untracked e st Hgo).
  change (pointers (released e st))
    with (PMap.delete (Ev.pointerId e) (pointers st)).
  split; intros Hrest.
  - destruct (PMap.delete (Ev.pointerId e) (pointers st));
      [congruence | split; reflexivity].
  - rewrite Hrest. simpl. split; [| split].
    + apply (deliveries_dispatch Up (released e st)).
    + apply Forall_forall. intros em Hin.
      apply dispatch_event in Hin.
      destruct Hin as (_ & Hg & _ & _ & _ & Hm & _). auto.
    + apply (flush_is_reset (released e st)).
Qed.

Lemma untracked_pointerup_witness :
  let e := Sample.second_finger 190 100 in
  let st' := fst (end_ e Scenario.two_fingers) in
  activeMode Scenario.two_fingers = Some Drag /\
  snd (end_ e Scenario.two_fingers) = [] /\
  PMap.size (pointers st') = 1%nat /\
  activeMode st' = Some Drag /\
  deliveries (snd (end_ (Sample.finger 100 100) st'))
  = [(ToHost Sample.host, Up)] /\
  deliveries (snd (end_ (Sample.mouse 100 100) Scenario.observed_press))
  = [(ToSubscriber 3%nat, Up); (ToSubscriber 4%nat, Up);
     (ToHost Sample.host, Up)].
Proof.
  intros e st'.
  destruct (untracked_pointerup e Scenario.two_fingers eq_refl)
    as [Hrest _].
  destruct Hrest as [Hend Hmode]; [discriminate |].
  destruct (untracked_pointerup (Sample.finger 100 100) st' eq_refl)
    as [_ Hlast].
  destruct (Hlast eq_refl) as (Hcalls & _).
  destruct (untracked_pointerup (Sample.mouse 100 100)
              Scenario.observed_press eq_refl) as [_ Hobserved].
  destruct (Hobserved eq_refl) as (Hboth & _).
  split; [reflexivity |]. split; [rewrite Hend; reflexivity |].
  split; [reflexivity |]. split; [exact Hmode |].
  split; [exact Hcalls | exact Hboth].
Defined.

(** ** The start point of a gesture *)

Lemma start_geometry (e : Ev.PointerEvent) (st : Tracker) :
  geometry (fst (start e st)) = geometry st /\
  subscribers (fst (start e st)) = subscribers st.
Proof. unfold start. destruct (Ev.isPrimary e); split; reflexivity. Qed.

Lemma move_start_point (e : Ev.PointerEvent) (layout : Layout)
  (st : Tracker) :
  tracking st = true ->
  startX (geometry (fst (move e layout st))) = startX (geometry st) /\
  startY (geometry (fst (move e layout st))) = startY (geometry st).
Proof.
  intros Htrack.
  destruct (move_ignored e layout st) eqn:Hign.
  { rewrite (move_ignored_spec e layout st Hign). split; reflexivity. }
  rewrite (move_run e layout st Hign). simpl fst.
  set (located := move_locate _ _ _ st).
  destruct (move_begin_geometry e located) as (_ & _ & _ & _ & _ & Hstart).
  change (tracking located) with (tracking st) in Hstart.
  rewrite Htrack in Hstart. simpl in Hstart.
  inversion Hstart as [[Hsx Hsy]].
  assert (Ht1 : tracking (fst (move_begin e located)) = true).
  { unfold move_begin. change (tracking located) with (tracking st).
    rewrite Htrack. rewrite andb_false_r. exact Htrack. }
  destruct (move_derive_geometry e (fst (move_begin e located)) Ht1)
    as (_ & _ & Hdx & Hdy & _).
  simpl in Hdx, Hdy. rewrite Hdx, Hdy, Hsx, Hsy. split; reflexivity.
Qed.

Lemma end_still_tracking (e : Ev.PointerEvent) (st : Tracker) :
  tracking (fst (end_ e st)) = true -> fst (end_ e st) = released e st.
Proof.
  destruct (defined (activeMode st) && tracking st) eqn:Hgo.
  - rewrite (end_tracked e st Hgo). discriminate.
  - rewrite (end_untracked e st Hgo).
    destruct (PMap.size (pointers (released e st)) =? 0)%nat;
      [discriminate | reflexivity].
Qed.

Lemma keydown_still_tracking (e : Ev.KeyboardEvent) (st : Tracker) :
  tracking (fst (keydown e st)) = true ->
  geometry (fst (keydown e st)) = geometry st.
Proof.
  unfold keydown.
  destruct (String.eqb (Ev.key e) "Escape" && defined (activeMode st)
            && tracking st);
    destruct (String.eqb (Ev.code e) "Space"); simpl;
    (discriminate || reflexivity).
Qed.

(** X11.  The start point is fixed while a gesture is tracked: whatever
    single input arrives (a further contact, a move, a release, a key, a
    call of [update], [subscribe] or [destroy]), if the gesture is tracked
    before and after it, [startX] and [startY] are unchanged. *)
Theorem start_point_fixed_while_tracked (st : Tracker) (i : Input) :
  tracking st = true ->
  tracking (fst (step st i)) = true ->
  startX (geometry (fst (step st i))) = startX (geometry st) /\
  startY (geometry (fst (step st i))) = startY (geometry st).
Proof.
  intros Htrack.
  destruct i as [e | e layout | e | e | e | e | o | | cb | cb];
    unfold step, listen; try (intros _; split; reflexivity);
    destruct (attached st); try (intros _; split; reflexivity).
  - intros _. destruct (start_geometry e st) as [-> _]. split; reflexivity.
  - intros _. now apply move_start_point.
  - intros Hafter. rewrite (end_still_tracking e st Hafter).
    split; reflexivity.
  - intros _. rewrite leave_keeps_state. split; reflexivity.
  - intros Hafter. rewrite (keydown_still_tracking e st Hafter).
    split; reflexivity.
  - intros _. unfold keyup.
    destruct (String.eqb (Ev.code e) "Space"); split; reflexivity.
Qed.

Lemma start_point_fixed_while_tracked_witness :
  let i := PointerDown (Sample.second_finger 190 100) in
  tracking Sample.drawing = true /\
  tracking (fst (step Sample.drawing i)) = true /\
  startX (geometry (fst (step Sample.drawing i))) = 100 /\
  startY (geometry (fst (step Sample.drawing i))) = 100.
Proof.
  intros i. split; [reflexivity |]. split; [reflexivity |].
  apply (start_point_fixed_while_tracked Sample.drawing i); reflexivity.
Defined.

(** ** After [destroy] *)

Lemma detached_step (st : Tracker) (i : Input) :
  attached st = false ->
  snd (step st i) = [] /\ attached (fst (step st i)) = false /\
  (pointers st = [] -> pointers (fst (step st i)) = []).
Proof.
  intros Hoff.
  destruct i as [e | e layout | e | e | e | e | o | | cb | cb];
    unfold step, listen; rewrite ?Hoff; simpl; auto.
Qed.

Lemma detached_run (inputs : list Input) (st : Tracker) :
  attached st = false -> pointers st = [] ->
  snd (run st inputs) = [] /\ attached (fst (run st inputs)) = false /\
  pointers (fst (run st inputs)) = [].
Proof.
  revert st. induction inputs as [| i rest IH]; intros st Hoff Hempty.
  - simpl. auto.
  - rewrite run_cons. simpl fst. simpl snd.
    destruct (detached_step st i Hoff) as (Hout & Hoff' & Hempty').
    destruct (IH (fst (step st i)) Hoff' (Hempty' Hempty))
      as (Hout' & Hoff'' & Hempty'').
    rewrite Hout, Hout'. auto.
Qed.

(** X12.  [destroy] is final and idempotent: a second call changes
    nothing, and after it no sequence of native events and handle calls
    dispatches anything, registers a contact or installs the listeners
    again. *)
Theorem destroyed_is_silent (st : Tracker) (inputs : list Input) :
  destroy (destroy st) = destroy st /\
  snd (run (destroy st) inputs) = [] /\
  attached (fst (run (destroy st) inputs)) = false /\
  pointers (fst (run (destroy st) inputs)) = [].
Proof.
  split; [reflexivity |].
  apply detached_run; reflexivity.
Qed.

(** ** Subscribers *)

Lemma step_subscribers (st : Tracker) (i : Input) :
  subscribers (fst (step st i)) =
  match i with
  | Subscribe cb => CSet.add cb (subscribers st)
  | Unsubscribe cb => CSet.delete cb (subscribers st)
  | Destroy => []
  | _ => subscribers st
  end.
Proof.
  destruct i as [e | e layout | e | e | e | e | o | | cb | cb];
    unfold step, listen; try reflexivity;
    destruct (attached st); try reflexivity.
  - apply start_geometry.
  - pose proof (f_equal subscribers (move_writes_only_geometry_aux e layout st))
      as H. exact H.
  - destruct (defined (activeMode st) && tracking st) eqn:Hgo.
    + rewrite (end_tracked e st Hgo). reflexivity.
    + rewrite (end_untracked e st Hgo).
      destruct (PMap.size (pointers (released e st)) =? 0)%nat; reflexivity.
  - now rewrite leave_keeps_state.
  - unfold keydown.
    destruct (String.eqb (Ev.key e) "Escape" && defined (activeMode st)
              && tracking st);
      destruct (String.eqb (Ev.code e) "Space"); reflexivity.
  - unfold keyup. destruct (String.eqb (Ev.code e) "Space"); reflexivity.
Qed.

Lemma add_NoDup (cb : nat) (s : CSet.t) : NoDup s -> NoDup (CSet.add cb s).
Proof.
  intros Hnd. unfold CSet.add.
  destruct (CSet.mem cb s) eqn:Hmem; [exact Hnd |].
  apply NoDup_app; [exact Hnd | repeat constructor; intros [] |].
  intros x Hx [<- | []].
  apply mem_In in Hx. congruence.
Qed.

Lemma run_subscribers_NoDup (inputs : list Input) (st : Tracker) :
  NoDup (subscribers st) -> NoDup (subscribers (fst (run st inputs))).
Proof.
  revert st. induction inputs as [| i rest IH]; intros st Hnd; [exact Hnd |].
  rewrite run_cons. simpl fst. apply IH. rewrite step_subscribers.
  destruct i; try exact Hnd.
  - constructor.
  - now apply add_NoDup.
  - unfold CSet.delete. now apply NoDup_filter.
Qed.

Lemma calls_dispatch (cb : nat) (ty : PointerChangeType) (st : Tracker) :
  calls cb (dispatch ty st) =
  List.length (List.filter (fun c => Nat.eqb c cb) (subscribers st)).
Proof.
  unfold calls, dispatch. rewrite filter_app, length_app. simpl.
  rewrite Nat.add_0_r.
  induction (subscribers st) as [| c rest IH]; simpl; [reflexivity |].
  destruct (Nat.eqb c cb); simpl; now rewrite IH.
Qed.

Lemma count_NoDup (cb : nat) (s : CSet.t) :
  NoDup s ->
  List.length (List.filter (fun c => Nat.eqb c cb) s) =
  if CSet.mem cb s then 1%nat else 0%nat.
Proof.
  induction s as [| c rest IH]; intros Hnd; [reflexivity |].
  inversion Hnd as [| ? ? Hnotin Hrest]; subst.
  unfold CSet.mem in *. simpl.
  rewrite (Nat.eqb_sym cb c).
  destruct (Nat.eqb_spec c cb) as [-> | Hne]; simpl.
  - rewrite (IH Hrest).
    destruct (existsb (Nat.eqb cb) rest) eqn:Hmem; [| reflexivity].
    exfalso. apply Hnotin. now apply mem_In.
  - now apply IH.
Qed.

(** *** One callback, subscribed twice *)

Lemma count_delete (cb : nat) (s : CSet.t) :
  List.length (List.filter (fun c => Nat.eqb c cb) (CSet.delete cb s)) = 0%nat.
Proof.
  unfold CSet.delete.
  induction s as [| c rest IH]; simpl; [reflexivity |].
  rewrite (Nat.eqb_sym cb c).
  destruct (Nat.eqb c cb) eqn:Heq; simpl; [exact IH |].
  rewrite Heq. exact IH.
Qed.

(** C8, amended.  On a tracker reached by any sequence of inputs, calling
    [subscribe] twice with the same callback leaves the subscriber set as
    the first call made it: the callback is in the set, and every dispatch
    calls it exactly once, after the first call as after the second.
    Calling either of the two returned unsubscribe functions removes it,
    and no later dispatch calls the callback. *)
Theorem same_callback_subscribed_once
  (host : Element) (o : Options.t) (inputs : list Input) (cb : nat) :
  let st := fst (run (pointer host o) inputs) in
  let first := subscribe cb st in
  let second := subscribe cb (fst first) in
  CSet.mem cb (subscribers (fst first)) = true /\
  subscribers (fst second) = subscribers (fst first) /\
  forall ty : PointerChangeType,
    calls cb (dispatch ty (fst first)) = 1%nat /\
    calls cb (dispatch ty (fst second)) = 1%nat /\
    calls cb (dispatch ty (snd first (fst second))) = 0%nat /\
    calls cb (dispatch ty (snd second (fst second))) = 0%nat /\
    forall event : Change.t,
      ~ In (Callback cb event) (dispatch ty (snd first (fst second))) /\
      ~ In (Callback cb event) (dispatch ty (snd second (fst second))).
Proof.
  intros st first second.
  assert (Hnd : NoDup (subscribers st))
    by (apply run_subscribers_NoDup; constructor).
  assert (Hmem : CSet.mem cb (subscribers (fst first)) = true)
    by apply add_mem.
  assert (Hsame : subscribers (fst second) = subscribers (fst first))
    by apply add_idempotent.
  assert (Honce : forall ty, calls cb (dispatch ty (fst first)) = 1%nat).
  { intros ty. rewrite calls_dispatch, count_NoDup, Hmem; [reflexivity |].
    now apply add_NoDup. }
  split; [exact Hmem |]. split; [exact Hsame |].
  intros ty.
  split; [apply Honce |].
  split; [rewrite calls_dispatch, Hsame, <- (calls_dispatch cb ty (fst first));
          apply Honce |].
  split; [rewrite calls_dispatch; apply count_delete |].
  split; [rewrite calls_dispatch; apply count_delete |].
  intros event.
  split; intros Hin; apply dispatch_callback in Hin;
    simpl in Hin; now apply delete_not_In in Hin.
Qed.

(** C8 as stated fails: callback 5 is subscribed twice to a default
    tracker.  A pointer press calls it once; after the first unsubscribe
    function is called, the next press does not call it at all. *)
Lemma unsubscribe_once_counterexample :
  let first := subscribe 5%nat (pointer Sample.host Options.empty) in
  let second := subscribe 5%nat (fst first) in
  let callbacks out :=
    List.filter (fun em => match em with Callback _ _ => true | _ => false end)
      out in
  let press := PointerDown (Sample.mouse 100 100) in
  List.length (callbacks (snd (step (fst second) press))) = 1%nat /\
  callbacks (snd (step (snd first (fst second)) press)) = [] /\
  List.length (snd (step (snd first (fst second)) press)) = 1%nat.
Proof.
  repeat split.
Qed.

(** X13.  Along every run of a tracker, however often callbacks were
    subscribed and unsubscribed, one dispatch calls each callback that is
    subscribed at that moment exactly once, and no other callback. *)
Theorem each_subscriber_called_once
  (host : Element) (o : Options.t) (inputs : list Input)
  (ty : PointerChangeType) (cb : nat) :
  let st := fst (run (pointer host o) inputs) in
  calls cb (dispatch ty st) =
  if CSet.mem cb (subscribers st) then 1%nat else 0%nat.
Proof.
  simpl. rewrite calls_dispatch. apply count_NoDup.
  apply run_subscribers_NoDup. constructor.
Qed.

(** ** Moves that do not start a gesture *)

Lemma move_not_started (e : Ev.PointerEvent) (layout : Layout)
  (st : Tracker) :
  tracking st = false ->
  Num.truthy (Ev.pressure e) && isAcceptable e st = false ->
  move_ignored e layout st = false ->
  let rect := layout (relative (config st)) in
  let cx := relativeCoord (config st) (Ev.clientX e) (left rect) in
  let cy := relativeCoord (config st) (Ev.clientY e) (top rect) in
  move e layout st =
  (move_locate cx cy rect st, dispatch Move (move_locate cx cy rect st)).
Proof.
  intros Htrack Hno Hign. rewrite (move_run e layout st Hign).
  cbv zeta. set (located := move_locate _ _ _ st).
  assert (Hb : move_begin e located = (located, [])).
  { unfold move_begin.
    change (tracking located) with (tracking st).
    change (isAcceptable e located) with (isAcceptable e st).
    rewrite Htrack. simpl negb. rewrite andb_true_r, Hno. reflexivity. }
  rewrite Hb. simpl fst. simpl snd.
  assert (Hd : move_derive e located = located).
  { unfold move_derive. change (tracking located) with (tracking st).
    now rewrite Htrack. }
  rewrite Hd. reflexivity.
Qed.

Lemma truthy_zero (p : Q) : p == 0 -> Num.truthy p = false.
Proof.
  intros Hp. unfold Num.truthy. apply negb_false_iff.
  now apply Qeq_bool_iff.
Qed.

(** X14.  On a tracker that tracks nothing, a move without pressure, or
    with no classified Mode, or with a Mode other than the mode filter
    while the space key is not held, starts nothing: tracking stays off,
    start point, deltas and rectangle are not written, and the only events
    dispatched are the Move events of a move that is not dropped. *)
Theorem rejected_move_starts_nothing
  (e : Ev.PointerEvent) (layout : Layout) (st : Tracker) :
  tracking st = false ->
  (Ev.pressure e == 0 \/ activeMode st = None \/
   (spaceKey st = false /\
    exists m m', mode (config st) = Some m /\ activeMode st = Some m' /\
                 m' <> m)) ->
  let st' := fst (move e layout st) in
  tracking st' = false /\
  (startX (geometry st'), startY (geometry st'))
  = (startX (geometry st), startY (geometry st)) /\
  (deltaX (geometry st'), deltaY (geometry st'))
  = (deltaX (geometry st), deltaY (geometry st)) /\
  rectangle (geometry st') = rectangle (geometry st) /\
  kinds (snd (move e layout st)) =
  if move_ignored e layout st then [] else List.repeat Move (receivers st).
Proof.
  intros Htrack Hwhy.
  assert (Hno : Num.truthy (Ev.pressure e) && isAcceptable e st = false).
  { destruct Hwhy as [Hp | [Hm | (Hs & m & m' & Hf & Hm & Hne)]].
    - now rewrite (truthy_zero _ Hp).
    - unfold isAcceptable. rewrite Hm. apply andb_false_r.
    - unfold isAcceptable. rewrite Hm, Hs, Hf. simpl.
      destruct m, m'; try congruence; apply andb_false_r. }
  destruct (move_ignored e layout st) eqn:Hign.
  - rewrite (move_ignored_spec e layout st Hign). simpl. auto.
  - rewrite (move_not_started e layout st Htrack Hno Hign).
    simpl fst. simpl snd. rewrite kinds_dispatch.
    repeat split; assumption.
Qed.

Lemma rejected_move_starts_nothing_witness :
  let e := Sample.mouse 120 130 in
  let st' := fst (move e Sample.page Scenario.filtered_press) in
  activeMode Scenario.filtered_press = Some Draw /\
  mode (config Scenario.filtered_press) = Some Drag /\
  tracking st' = false /\
  kinds (snd (move e Sample.page Scenario.filtered_press)) = [Move].
Proof.
  intros e st'.
  destruct (rejected_move_starts_nothing e Sample.page
              Scenario.filtered_press eq_refl)
    as (Htrack & _ & _ & _ & Hkinds).
  - right. right. split; [reflexivity |].
    exists Drag, Draw. repeat split. discriminate.
  - split; [reflexivity |]. split; [reflexivity |].
    split; [exact Htrack | exact Hkinds].
Defined.

(** X15.  A contact that is not primary never causes a dispatch when it
    lands, moves or leaves: landing registers it and sets Mode to the
    classification of the registry with the new contact in it, under the
    drag band and the space flag of the state, but leaves anchors, ratio
    lock, target, geometry and tracking flag alone; moving and leaving
    change nothing at all. *)
Theorem secondary_contact_is_silent
  (e : Ev.PointerEvent) (layout : Layout) (st : Tracker) :
  Ev.isPrimary e = false ->
  snd (start e st) = [] /\
  anchors (fst (start e st)) = anchors st /\
  activeTarget (fst (start e st)) = activeTarget st /\
  pointers (fst (start e st))
  = PMap.set (Ev.pointerId e) e (pointers st) /\
  activeMode (fst (start e st))
  = getPointerMode (PMap.set (Ev.pointerId e) e (pointers st))
      (dragMin (config st)) (dragMax (config st)) (spaceKey st) /\
  geometry (fst (start e st)) = geometry st /\
  tracking (fst (start e st)) = tracking st /\
  move e layout st = (st, []) /\
  leave e st = (st, []).
Proof.
  intros Hsec. unfold start, move, leave. rewrite Hsec. simpl.
  rewrite !orb_true_r. repeat split.
Qed.

Lemma secondary_contact_is_silent_witness :
  let e := Sample.second_finger 190 100 in
  let near := Sample.second_finger 60 0 in
  Ev.isPrimary e = false /\
  snd (start e Sample.one_finger) = [] /\
  PMap.size (pointers (fst (start e Sample.one_finger))) = 2%nat /\
  activeMode Sample.one_finger = Some Draw /\
  activeMode (fst (start e Sample.one_finger)) = None /\
  activeMode (fst (start near Sample.one_finger)) = Some Drag /\
  move e Sample.page Sample.one_finger = (Sample.one_finger, []).
Proof.
  intros e near.
  destruct (secondary_contact_is_silent e Sample.page Sample.one_finger
              eq_refl) as (Hout & _ & _ & Hp & Hm & _ & _ & Hmove & _).
  destruct (secondary_contact_is_silent near Sample.page Sample.one_finger
              eq_refl) as (_ & _ & _ & _ & Hnear & _).
  split; [reflexivity |]. split; [exact Hout |].
  split; [rewrite Hp; reflexivity |]. split; [reflexivity |].
  split; [rewrite Hm; reflexivity |].
  split; [rewrite Hnear; reflexivity | exact Hmove].
Defined.

(** ** Keys *)

(** X23.  The Escape key cancels a tracked gesture with a classified
    Mode: every subscriber, in subscription order, and then the host
    element are called once with a Cancel event, carrying the geometry and
    the Mode of the gesture, nobody else is called, and the state is then
    reset.  Without such a gesture the key calls nobody and leaves
    geometry, tracking flag, Mode, target and registry as they are. *)
Theorem escape_key_cancels (e : Ev.KeyboardEvent) (st : Tracker) :
  Ev.key e = "Escape"%string ->
  let cancels := defined (activeMode st) && tracking st in
  deliveries (snd (keydown e st)) =
    (if cancels then to_all Cancel st else []) /\
  Forall (fun em => Change.geometry (emitted em) = geometry st /\
                    Change.mode (emitted em) = activeMode st)
    (snd (keydown e st)) /\
  (cancels = true -> is_reset (fst (keydown e st))) /\
  (cancels = false ->
   (geometry (fst (keydown e st)), tracking (fst (keydown e st)),
    activeMode (fst (keydown e st)), activeTarget (fst (keydown e st)),
    pointers (fst (keydown e st)))
   = (geometry st, tracking st, activeMode st, activeTarget st,
      pointers st)).
Proof.
  intros Hkey. unfold keydown. rewrite Hkey. simpl String.eqb.
  rewrite andb_true_l.
  destruct (defined (activeMode st) && tracking st);
    destruct (String.eqb (Ev.code e) "Space"); simpl;
    repeat split; try discriminate;
    try apply (deliveries_dispatch Cancel st);
    try apply (flush_is_reset st);
    try constructor;
    apply Forall_forall; intros em Hin; apply dispatch_event in Hin;
    destruct Hin as (_ & Hg & _ & _ & _ & Hm & _); auto.
Qed.

Lemma escape_key_cancels_witness :
  let st := Scenario.observed_drawing in
  Ev.key Sample.escape = "Escape"%string /\
  deliveries (snd (keydown Sample.escape st))
  = [(ToSubscriber 3%nat, Cancel); (ToSubscriber 4%nat, Cancel);
     (ToHost Sample.host, Cancel)] /\
  is_reset (fst (keydown Sample.escape st)) /\
  deliveries (snd (keydown Sample.escape Scenario.observed_press)) = [].
Proof.
  intros st.
  destruct (escape_key_cancels Sample.escape st eq_refl)
    as (Hcalls & _ & Hreset & _).
  destruct (escape_key_cancels Sample.escape Scenario.observed_press
              eq_refl) as (Hnone & _).
  split; [reflexivity |]. split; [exact Hcalls |].
  split; [exact (Hreset eq_refl) | exact Hnone].
Defined.

Lemma keydown_space (k : Ev.KeyboardEvent) (st : Tracker) :
  Ev.code k = "Space"%string ->
  let st' := fst (keydown k st) in
  spaceKey st' = true /\ attached st' = attached st /\
  config st' = config st /\
  (pointers st = [] -> pointers st' = []).
Proof.
  intros Hcode. unfold keydown. rewrite Hcode.
  destruct (String.eqb (Ev.key k) "Escape" && defined (activeMode st)
            && tracking st); simpl; auto.
Qed.

Lemma fst_run_cons (st : Tracker) (i : Input) (rest : list Input) :
  fst (run st (i :: rest)) = fst (run (fst (step st i)) rest).
Proof. now rewrite run_cons. Qed.

Lemma first_contact_mode (e : Ev.PointerEvent) (st : Tracker) :
  attached st = true ->
  pointers st = [] ->
  activeMode (fst (step st (PointerDown e)))
  = Some (single_contact_mode e (spaceKey st)).
Proof.
  intros Hon Hempty. unfold step, listen. rewrite Hon.
  destruct (start_classifies e st) as (Hp & Hm & _).
  rewrite Hm, Hp, Hempty. unfold getPointerMode, single_contact_mode.
  simpl.
  destruct (spaceKey st), (String.eqb (Ev.pointerType e) "mouse"),
    (Ev.button e =? Mouse.Middle)%Z; reflexivity.
Qed.

(** X16.  The space key is a sticky Drag override.  With the registry
    empty, after a keydown of Space the next contact classifies as Drag,
    whatever its pointer type and button; once Space is released again, it
    classifies as without the key: Drag for a mouse with the middle button,
    Draw otherwise. *)
Theorem space_key_makes_drag
  (k : Ev.KeyboardEvent) (e : Ev.PointerEvent) (st : Tracker) :
  Ev.code k = "Space"%string ->
  attached st = true ->
  pointers st = [] ->
  activeMode (fst (run st [KeyDown k; PointerDown e])) = Some Drag /\
  activeMode (fst (run st [KeyDown k; KeyUp k; PointerDown e]))
  = Some (single_contact_mode e false).
Proof.
  intros Hcode Hon Hempty.
  destruct (keydown_space k st Hcode) as (Hs & Ha & _ & Hp).
  specialize (Hp Hempty). rewrite Hon in Ha.
  assert (Hdown : fst (step st (KeyDown k)) = fst (keydown k st)).
  { unfold step, listen. now rewrite Hon. }
  split.
  - rewrite !fst_run_cons, Hdown. cbn [run fst].
    rewrite (first_contact_mode e _ Ha Hp), Hs. reflexivity.
  - rewrite !fst_run_cons, Hdown. cbn [run fst].
    assert (Hup : fst (step (fst (keydown k st)) (KeyUp k))
                  = set_spaceKey false (fst (keydown k st))).
    { unfold step, listen, keyup. now rewrite Ha, Hcode. }
    rewrite Hup.
    now rewrite (first_contact_mode e
                   (set_spaceKey false (fst (keydown k st))) Ha Hp).
Qed.

Lemma space_key_makes_drag_witness :
  let st := pointer Sample.host Options.empty in
  let e := Sample.mouse 100 100 in
  activeMode (fst (run st [KeyDown Scenario.space; PointerDown e]))
  = Some Drag /\
  activeMode
    (fst (run st [KeyDown Scenario.space; KeyUp Scenario.space;
                  PointerDown e])) = Some Draw.
Proof.
  intros st e.
  exact (space_key_makes_drag Scenario.space e st eq_refl eq_refl eq_refl).
Defined.

(** ** Anchors and ratio lock of a gesture *)

(** X17.  The alt and shift keys of a press apply to that gesture only.  A
    primary press with alt sets both anchors to center and one with shift
    turns the ratio lock on; releasing the only contact restores the
    anchors and the ratio lock the tracker was constructed with, provided
    the options do not hold the three properties with the value
    [undefined]. *)
Theorem press_release_restores_anchors
  (host : Element) (o : Options.t) (e : Ev.PointerEvent) :
  Options.originX o <> Undefined ->
  Options.originY o <> Undefined ->
  Options.ratioLock o <> Undefined ->
  let st0 := pointer host o in
  let pressed := fst (step st0 (PointerDown e)) in
  let lifted := fst (step pressed (PointerUp e)) in
  anchors pressed =
    (if Ev.isPrimary e && Ev.altKey e then OriginX.Center else originX st0,
     if Ev.isPrimary e && Ev.altKey e then OriginY.Center else originY st0,
     if Ev.isPrimary e && Ev.shiftKey e then true else ratioLock st0) /\
  anchors lifted = anchors st0.
Proof.
  intros HX HY HL st0 pressed lifted.
  assert (Hdown : pressed = fst (start e st0)) by reflexivity.
  destruct (start_classifies e st0) as (Hp & _ & Ht & Ha).
  rewrite <- Hdown in Hp, Ht, Ha. simpl in Hp, Ht, Ha.
  assert (Hopt : options pressed = options st0).
  { rewrite Hdown. unfold start. destruct (Ev.isPrimary e); reflexivity. }
  assert (Hgo : defined (activeMode pressed) && tracking pressed = false).
  { rewrite Ht. apply andb_false_r. }
  assert (Hup : lifted = flush (released e pressed)).
  { unfold lifted, step, listen. rewrite Ha, (end_untracked e pressed Hgo).
    unfold released at 1. simpl pointers. rewrite Hp. simpl.
    rewrite Z.eqb_refl. reflexivity. }
  split.
  - rewrite Hdown. unfold start, anchors.
    destruct (Ev.isPrimary e), (Ev.altKey e), (Ev.shiftKey e); reflexivity.
  - rewrite Hup. unfold anchors, flush. simpl. rewrite Hopt.
    destruct o as [n m p sd sc r ox oy rl ds dz dmin dmax t mo].
    simpl in HX, HY, HL. simpl.
    destruct ox, oy, rl; try congruence; reflexivity.
Qed.

Lemma press_release_restores_anchors_witness :
  let st0 := pointer Sample.host Scenario.anchored_end in
  let pressed := fst (step st0 (PointerDown Scenario.modified_press)) in
  let lifted := fst (step pressed (PointerUp Scenario.modified_press)) in
  anchors st0 = (OriginX.Right, OriginY.Top, false) /\
  anchors pressed = (OriginX.Center, OriginY.Center, true) /\
  anchors lifted = (OriginX.Right, OriginY.Top, false).
Proof.
  intros st0 pressed lifted.
  assert (HX : Options.originX Scenario.anchored_end <> Undefined)
    by discriminate.
  assert (HY : Options.originY Scenario.anchored_end <> Undefined)
    by discriminate.
  assert (HL : Options.ratioLock Scenario.anchored_end <> Undefined)
    by discriminate.
  destruct (press_release_restores_anchors Sample.host
              Scenario.anchored_end Scenario.modified_press HX HY HL)
    as [Hpressed Hlifted].
  split; [reflexivity |]. split; [exact Hpressed | exact Hlifted].
Defined.

(** ** [update] *)

(** X18.  [update] never touches the gesture in flight (geometry, tracking
    flag, Mode, target, registry, space flag), the subscribers or the
    listeners; called with [undefined] or with an empty object it changes
    nothing at all; an anchor it is given becomes the current one and the
    one a later reset restores. *)
Theorem update_keeps_gesture (newOptions : option Options.t) (st : Tracker) :
  gesture_state (update newOptions st) = gesture_state st /\
  subscribers (update newOptions st) = subscribers st /\
  attached (update newOptions st) = attached st /\
  update None st = st /\
  update (Some Options.empty) st = st /\
  (forall v : OriginX,
      Options.get Options.originX newOptions = Value v ->
      originX (update newOptions st) = v /\
      originX (flush (update newOptions st)) = v).
Proof.
  repeat split.
  - destruct st as [el o c ox oy rl g sk am at' tr ps subs att].
    destruct c. reflexivity.
  - destruct st as [el o c ox oy rl g sk am at' tr ps subs att].
    destruct c, o. reflexivity.
  - simpl. now rewrite H.
  - destruct newOptions as [n |]; simpl in *; [| discriminate].
    unfold assign_prop. rewrite H. reflexivity.
Qed.

Lemma update_keeps_gesture_witness :
  let st := update (Some Scenario.anchored_end) Sample.drawing in
  gesture_state st = gesture_state Sample.drawing /\
  originX st = OriginX.Right /\ originX (flush st) = OriginX.Right.
Proof.
  intros st.
  destruct (update_keeps_gesture (Some Scenario.anchored_end) Sample.drawing)
    as (Hg & _ & _ & _ & _ & Hx).
  split; [exact Hg |]. exact (Hx OriginX.Right eq_refl).
Defined.

Lemma step_config (st : Tracker) (i : Input) :
  config (fst (step st i)) =
  match i with
  | Update newOptions => config (update newOptions st)
  | _ => config st
  end.
Proof.
  destruct i as [e | e layout | e | e | e | e | o | | cb | cb];
    unfold step, listen; try reflexivity;
    destruct (attached st); try reflexivity.
  - unfold start. destruct (Ev.isPrimary e); reflexivity.
  - exact (f_equal config (move_writes_only_geometry_aux e layout st)).
  - destruct (defined (activeMode st) && tracking st) eqn:Hgo.
    + rewrite (end_tracked e st Hgo). reflexivity.
    + rewrite (end_untracked e st Hgo).
      destruct (PMap.size (pointers (released e st)) =? 0)%nat; reflexivity.
  - now rewrite leave_keeps_state.
  - unfold keydown.
    destruct (String.eqb (Ev.key e) "Escape" && defined (activeMode st)
              && tracking st);
      destruct (String.eqb (Ev.code e) "Space"); reflexivity.
  - unfold keyup. destruct (String.eqb (Ev.code e) "Space"); reflexivity.
Qed.

Lemma run_keeps_mode_filter (st : Tracker) (inputs : list Input) :
  mode (config st) <> None ->
  mode (config (fst (run st inputs))) <> None.
Proof.
  revert st. induction inputs as [| i rest IH]; intros st Hset; [exact Hset |].
  rewrite fst_run_cons. apply IH. rewrite step_config.
  destruct i as [| | | | | | o | | |]; try exact Hset.
  destruct o as [n |]; simpl; [| exact Hset].
  destruct (Options.mode n); simpl; (exact Hset || discriminate).
Qed.

(** X19.  A mode filter can be replaced but never removed.  Once the
    tracker has a mode filter, it has one after every sequence of inputs,
    [update] calls included; an [update] whose options give a mode makes
    that mode the filter; and an [update] without options, or whose options
    leave the mode out or give it as [undefined], leaves the filter as it
    is. *)
Theorem mode_filter_never_removed (st : Tracker) (inputs : list Input) :
  mode (config st) <> None ->
  let st' := fst (run st inputs) in
  mode (config st') <> None /\
  (forall (n : Options.t) (m : PointerMode),
     Options.mode n = Value m ->
     mode (config (fst (step st' (Update (Some n))))) = Some m) /\
  (forall n : Options.t,
     Options.mode n = Absent \/ Options.mode n = Undefined ->
     mode (config (fst (step st' (Update (Some n))))) = mode (config st')) /\
  mode (config (fst (step st' (Update None)))) = mode (config st').
Proof.
  intros Hset st'.
  split; [now apply run_keeps_mode_filter |].
  split; [| split].
  - intros n m Hn. simpl. rewrite Hn. reflexivity.
  - intros n [Hn | Hn]; simpl; rewrite Hn; reflexivity.
  - reflexivity.
Qed.

Lemma mode_filter_never_removed_witness :
  let st := pointer Sample.host Scenario.drag_only in
  let inputs :=
    [Update (Some Options.empty); Update None;
     PointerDown (Sample.mouse 100 100); PointerUp (Sample.mouse 100 100)] in
  let st' := fst (run st inputs) in
  mode (config st) = Some Drag /\
  mode (config st') = Some Drag /\
  mode (config (fst (step st' (Update (Some Scenario.draw_only)))))
  = Some Draw /\
  mode (config (fst (step st' (Update (Some Options.empty))))) = Some Drag.
Proof.
  intros st inputs st'.
  assert (Hset : mode (config st) <> None) by discriminate.
  destruct (mode_filter_never_removed st inputs Hset)
    as (_ & Hreplace & Hkeep & _).
  split; [reflexivity |]. split; [reflexivity |].
  split; [exact (Hreplace Scenario.draw_only Draw eq_refl) |].
  exact (Hkeep Options.empty (or_introl eq_refl)).
Defined.

(** ** Coherence of the dispatched events *)

Lemma dispatch_coherent (ty : PointerChangeType) (st : Tracker) :
  permitted ty st = true ->
  Forall (fun em => coherent (emitted em) = true) (dispatch ty st).
Proof.
  intros Hperm. apply Forall_forall. intros em Hin.
  apply dispatch_event in Hin.
  destruct Hin as (Hty & _ & _ & _ & _ & Hm & Hdraw & Hdrag & Hmov & _).
  unfold coherent. rewrite Hty, Hm, Hdraw, Hdrag, Hmov.
  unfold permitted in Hperm.
  destruct ty, (tracking st), (activeMode st) as [[|]|];
    simpl in *; congruence.
Qed.

Lemma permitted_gesture_kind (st : Tracker) (b : bool) :
  tracking st = true -> defined (activeMode st) = true ->
  permitted (getEventType (activeMode st) b) st = true.
Proof.
  intros Ht Hm. unfold permitted.
  destruct (activeMode st) as [[|]|], b; simpl; rewrite ?Ht;
    (reflexivity || discriminate).
Qed.

Lemma isAcceptable_defined (e : Ev.PointerEvent) (st : Tracker) :
  isAcceptable e st = true -> defined (activeMode st) = true.
Proof.
  unfold isAcceptable. destruct (activeMode st); [reflexivity | discriminate].
Qed.

Lemma move_begin_coherent (e : Ev.PointerEvent) (st : Tracker) :
  Forall (fun em => coherent (emitted em) = true) (snd (move_begin e st)).
Proof.
  unfold move_begin.
  destruct (Num.truthy (Ev.pressure e) && negb (tracking st)
            && isAcceptable e st) eqn:Hgo; [| constructor].
  apply andb_true_iff in Hgo. destruct Hgo as [_ Hacc].
  simpl snd. apply dispatch_coherent.
  apply (permitted_gesture_kind (set_geometry _ true st) false);
    [reflexivity | exact (isAcceptable_defined e st Hacc)].
Qed.

Lemma step_coherent (st : Tracker) (i : Input) :
  Forall (fun em => coherent (emitted em) = true) (snd (step st i)).
Proof.
  destruct i as [e | e layout | e | e | e | e | o | | cb | cb];
    unfold step, listen; try constructor;
    destruct (attached st); try constructor.
  - unfold start. destruct (Ev.isPrimary e); [| constructor].
    now apply dispatch_coherent.
  - destruct (move_ignored e layout st) eqn:Hign.
    + rewrite (move_ignored_spec e layout st Hign). constructor.
    + rewrite (move_run e layout st Hign). simpl snd.
      apply Forall_app. split; [apply move_begin_coherent |].
      now apply dispatch_coherent.
  - destruct (defined (activeMode st) && tracking st) eqn:Hgo.
    + rewrite (end_tracked e st Hgo). simpl snd.
      apply andb_true_iff in Hgo. destruct Hgo as [Hm Ht].
      apply Forall_app.
      split; apply dispatch_coherent; [| reflexivity].
      now apply (permitted_gesture_kind (released e st) true).
    + rewrite (end_untracked e st Hgo).
      destruct (PMap.size (pointers (released e st)) =? 0)%nat;
        [now apply dispatch_coherent | constructor].
  - unfold leave.
    destruct (defined (activeMode st)) eqn:Hm, (Ev.isPrimary e),
      (tracking st) eqn:Ht; simpl; try constructor.
    apply dispatch_coherent. unfold permitted. now rewrite Ht, Hm.
  - unfold keydown.
    destruct (String.eqb (Ev.key e) "Escape"),
      (defined (activeMode st)) eqn:Hm, (tracking st) eqn:Ht;
      destruct (String.eqb (Ev.code e) "Space"); simpl; try constructor;
      apply dispatch_coherent; unfold permitted; now rewrite Ht, Hm.
  - unfold keyup. destruct (String.eqb (Ev.code e) "Space"); constructor.
Qed.

(** X20.  Every event a tracker ever dispatches is coherent, from any
    state and under any inputs: no Menu event is dispatched; [isMoving]
    holds exactly for Move events; [isDrawing] and [isDragging] exclude
    each other and hold only with the mode Draw, respectively Drag; a
    draw-start or draw-end event is drawing, a drag-start or drag-end event
    is dragging, and a Cancel event is one of the two. *)
Theorem dispatched_events_are_coherent (st : Tracker) (inputs : list Input) :
  Forall (fun em => coherent (emitted em) = true) (snd (run st inputs)).
Proof.
  revert st. induction inputs as [| i rest IH]; intros st; [constructor |].
  rewrite run_cons. simpl snd. apply Forall_app.
  split; [apply step_coherent | apply IH].
Qed.

(** ** The reset *)

(** X21.  [flush] is idempotent, and it is not a reset of everything: the
    last client position and offsets, the space flag, the options, the
    configuration, the subscribers and the listeners survive it. *)
Theorem flush_idempotent_and_partial (st : Tracker) :
  flush (flush st) = flush st /\
  is_reset (flush st) /\
  survives_reset (flush st) = survives_reset st.
Proof.
  split; [| split; [apply flush_is_reset | reflexivity]].
  unfold flush. simpl.
  destruct (Options.originX (options st)), (Options.originY (options st)),
    (Options.ratioLock (options st)); reflexivity.
Qed.

(** ** The gesture-start event *)

(** X22.  The gesture-start event of a move is dispatched before the
    deltas and the rectangle are derived: it carries the new client
    position (for a [deltaScale] other than zero, the screen position of
    the event relative to the rectangle of the [relative] element, scaled)
    and the new start point (that client position in Draw mode, the raw
    screen position of the event in Drag mode), but the deltas and the
    rectangle of the state before the move. *)
Theorem start_event_payload
  (e : Ev.PointerEvent) (layout : Layout) (st : Tracker) (em : Emission) :
  In em (snd (move e layout st)) ->
  Change.type (emitted em) <> Move ->
  let g := Change.geometry (emitted em) in
  let rect := layout (relative (config st)) in
  Change.type (emitted em) = getEventType (activeMode st) false /\
  (startX g, startY g) =
    (if is_mode Draw (activeMode st) then (clientX g, clientY g)
     else (Ev.clientX e, Ev.clientY e)) /\
  (deltaX g, deltaY g) = (deltaX (geometry st), deltaY (geometry st)) /\
  rectangle g = rectangle (geometry st) /\
  (~ deltaScale (config st) == 0 ->
   (clientX g, clientY g) =
   (relativeCoord (config st) (Ev.clientX e) (left rect),
    relativeCoord (config st) (Ev.clientY e) (top rect)) /\
   (clientX g, clientY g) =
   (clientX (geometry (fst (move e layout st))),
    clientY (geometry (fst (move e layout st))))).
Proof.
  pose proof (move_client e layout st) as Hclient.
  destruct (move_ignored e layout st) eqn:Hign.
  { rewrite (move_ignored_spec e layout st Hign). intros []. }
  specialize (Hclient eq_refl). cbv zeta in Hclient.
  destruct Hclient as [Hcx Hcy]. rewrite Hcx, Hcy. clear Hcx Hcy.
  rewrite (move_run e layout st Hign). simpl snd.
  set (located := move_locate _ _ _ st).
  intros Hin Hkind. apply in_app_iff in Hin.
  destruct Hin as [Hin | Hin];
    [| apply dispatch_event in Hin; destruct Hin as [Hty _]; congruence].
  revert Hin. unfold move_begin.
  destruct (Num.truthy (Ev.pressure e) && negb (tracking located)
            && isAcceptable e located); [| intros []].
  simpl snd. intros Hin. apply dispatch_event in Hin.
  destruct Hin as (Hty & Hg & _). rewrite Hty, Hg. simpl.
  destruct (is_mode Draw (activeMode st)); repeat split.
Qed.

Lemma start_event_payload_witness :
  let e := Sample.mouse 100 100 in
  let rect := Sample.page (relative (config Scenario.pressed)) in
  snd (move e Sample.page Scenario.pressed) <> [] /\
  Forall (fun em =>
            Change.type (emitted em) <> Move ->
            Change.type (emitted em) = DrawStart /\
            (startX (Change.geometry (emitted em)),
             startY (Change.geometry (emitted em)))
            = (clientX (Change.geometry (emitted em)),
               clientY (Change.geometry (emitted em))) /\
            (clientX (Change.geometry (emitted em)),
             clientY (Change.geometry (emitted em)))
            = (relativeCoord (config Scenario.pressed) (Ev.clientX e)
                 (left rect),
               relativeCoord (config Scenario.pressed) (Ev.clientY e)
                 (top rect)) /\
            deltaX (Change.geometry (emitted em)) = 0 /\
            clientWidth (Change.geometry (emitted em)) = 0)
    (snd (move e Sample.page Scenario.pressed)).
Proof.
  intros e rect. split; [discriminate |].
  apply Forall_forall. intros em Hin Hkind.
  destruct (start_event_payload e Sample.page Scenario.pressed em Hin Hkind)
    as (Hty & Hs & Hd & Hr & Hc).
  assert (Hscale : ~ deltaScale (config Scenario.pressed) == 0)
    by (intros H; discriminate H).
  destruct (Hc Hscale) as [Hpos _].
  split; [exact Hty |]. split; [exact Hs |]. split; [exact Hpos |].
  split; [exact (f_equal fst Hd) | exact (f_equal (fun r => snd (fst r)) Hr)].
Defined.

(** * The composer *)

(** ** Heaps of clients *)

Lemma nth_error_modify (i j : nat) (f : Tracker -> Tracker)
  (h : list Composer.Client) :
  List.nth_error (Composer.modify i f h) j =
  if Nat.eqb j i
  then option_map
         (fun c => {| Composer.tracker := f (Composer.tracker c);
                      Composer.shares_init := Composer.shares_init c |})
         (List.nth_error h j)
  else List.nth_error h j.
Proof.
  revert i j. induction h as [| c rest IH]; intros [| i] [| j]; simpl;
    try reflexivity.
  - now destruct (Nat.eqb j i).
  - apply IH.
Qed.

Lemma length_modify (i : nat) (f : Tracker -> Tracker)
  (h : list Composer.Client) :
  List.length (Composer.modify i f h) = List.length h.
Proof.
  revert i. induction h as [| c rest IH]; intros [| i]; simpl;
    try reflexivity. now rewrite IH.
Qed.

Lemma modify_modify (i : nat) (f g : Tracker -> Tracker)
  (h : list Composer.Client) :
  Composer.modify i g (Composer.modify i f h)
  = Composer.modify i (fun st => g (f st)) h.
Proof.
  revert i. induction h as [| c rest IH]; intros [| i]; simpl;
    try reflexivity. now rewrite IH.
Qed.

Lemma nth_error_write_init (o : Options.t) (j : nat)
  (h : list Composer.Client) (cl : Composer.Client) :
  List.nth_error (Composer.write_init o h) j = Some cl ->
  exists cl0,
    List.nth_error h j = Some cl0 /\
    attached (Composer.tracker cl) = attached (Composer.tracker cl0) /\
    subscribed (Composer.tracker cl) = subscribed (Composer.tracker cl0) /\
    Composer.shares_init cl = Composer.shares_init cl0.
Proof.
  unfold Composer.write_init. rewrite nth_error_map.
  destruct (List.nth_error h j) as [cl0 |]; simpl; [| discriminate].
  intros [= <-]. exists cl0.
  destruct (Composer.shares_init cl0) eqn:Hs; simpl; auto.
Qed.

Lemma length_write_init (o : Options.t) (h : list Composer.Client) :
  List.length (Composer.write_init o h) = List.length h.
Proof. apply length_map. Qed.

(** ** Subscribing a new client *)

Lemma resubscribe_spec (i : nat) (callbacks : list nat)
  (h : list Composer.Client) (m : list (nat * nat)) :
  Composer.resubscribe i callbacks h m =
  (Composer.modify i
     (fun st =>
        List.fold_left (fun s cb => fst (subscribe cb s)) callbacks st) h,
   List.fold_left (fun m cb => Composer.set cb i m) callbacks m).
Proof.
  revert h m. induction callbacks as [| cb rest IH]; intros h m; simpl.
  - f_equal. revert i. induction h as [| c tl IHh]; intros [| i]; simpl;
      try reflexivity.
    + now destruct c.
    + now rewrite <- IHh.
  - rewrite IH, modify_modify. reflexivity.
Qed.

Lemma fold_subscribe_frame (callbacks : list nat) (st : Tracker) :
  let st' :=
    List.fold_left (fun s cb => fst (subscribe cb s)) callbacks st in
  attached st' = attached st /\
  subscribed st' =
  List.fold_left (fun s cb => CSet.add cb s) callbacks (subscribed st).
Proof.
  revert st. induction callbacks as [| cb rest IH]; intros st; simpl;
    [auto |].
  destruct (IH (fst (subscribe cb st))) as [Ha Hs].
  simpl in Ha, Hs. auto.
Qed.

Lemma fold_add_fresh (callbacks : list nat) (s : CSet.t) :
  NoDup callbacks ->
  (forall cb, In cb callbacks -> ~ In cb s) ->
  List.fold_left (fun s cb => CSet.add cb s) callbacks s = s ++ callbacks.
Proof.
  revert s. induction callbacks as [| cb rest IH]; intros s Hnd Hfresh;
    simpl; [now rewrite app_nil_r |].
  inversion Hnd as [| ? ? Hnotin Hrest]; subst.
  assert (Hmem : CSet.mem cb s = false).
  { destruct (CSet.mem cb s) eqn:Hmem; [| reflexivity].
    apply mem_In in Hmem. exfalso. apply (Hfresh cb); [now left | exact Hmem]. }
  unfold CSet.add at 2. rewrite Hmem.
  rewrite IH; [now rewrite <- app_assoc | exact Hrest |].
  intros c Hc Hin. apply in_app_iff in Hin.
  destruct Hin as [Hin | [<- | []]]; [| contradiction].
  apply (Hfresh c); [now right | exact Hin].
Qed.

Lemma get_set (cb c i : nat) (m : list (nat * nat)) :
  Composer.get cb (Composer.set c i m) =
  if Nat.eqb c cb then Some i else Composer.get cb m.
Proof.
  unfold Composer.set. simpl. destruct (Nat.eqb_spec c cb) as [-> | Hne];
    [reflexivity |].
  unfold Composer.delete.
  induction m as [| [c0 i0] rest IH]; simpl; [reflexivity |].
  destruct (Nat.eqb_spec c0 c) as [-> | Hne0]; simpl.
  - destruct (Nat.eqb_spec c cb); [contradiction | exact IH].
  - destruct (Nat.eqb c0 cb); [reflexivity | exact IH].
Qed.

Lemma get_delete (cb c : nat) (m : list (nat * nat)) :
  Composer.get cb (Composer.delete c m) =
  if Nat.eqb c cb then None else Composer.get cb m.
Proof.
  unfold Composer.delete.
  induction m as [| [c0 i0] rest IH]; simpl;
    [now destruct (Nat.eqb c cb) |].
  destruct (Nat.eqb_spec c0 c) as [-> | Hne0]; simpl.
  - destruct (Nat.eqb_spec c cb); [exact IH | exact IH].
  - destruct (Nat.eqb_spec c0 cb) as [-> | Hne1].
    + destruct (Nat.eqb_spec c cb); [congruence | reflexivity].
    + exact IH.
Qed.

Lemma get_fold_set (cb i : nat) (callbacks : list nat)
  (m : list (nat * nat)) :
  Composer.get cb
    (List.fold_left (fun m c => Composer.set c i m) callbacks m) =
  if CSet.mem cb callbacks then Some i else Composer.get cb m.
Proof.
  revert m. induction callbacks as [| c rest IH]; intros m; simpl;
    [reflexivity |].
  rewrite IH, get_set. unfold CSet.mem. simpl.
  rewrite (Nat.eqb_sym cb c).
  destruct (existsb (Nat.eqb cb) rest), (Nat.eqb c cb); reflexivity.
Qed.

(** ** What the composer maintains *)

Lemma step_attached (st : Tracker) (i : Input) :
  attached (fst (step st i)) =
  match i with
  | Destroy => false
  | _ => attached st
  end.
Proof.
  destruct i as [e | e layout | e | e | e | e | o | | cb | cb];
    unfold step, listen; try reflexivity;
    destruct (attached st) eqn:Hon; try exact Hon.
  - destruct (start_classifies e st) as (_ & _ & _ & Ha). congruence.
  - destruct (move_keeps e layout st) as (_ & _ & Ha). congruence.
  - destruct (defined (activeMode st) && tracking st) eqn:Hgo.
    + rewrite (end_tracked e st Hgo). exact Hon.
    + rewrite (end_untracked e st Hgo).
      destruct (PMap.size (pointers (released e st)) =? 0)%nat; exact Hon.
  - now rewrite leave_keeps_state.
  - destruct (keydown_cases e st) as [[_ Ha] | (_ & _ & _ & Ha)];
      congruence.
  - destruct (keyup_keeps e st) as (_ & _ & _ & Ha). congruence.
Qed.

Lemma receive_keeps (n : Native) (st : Tracker) :
  attached (fst (receive n st)) = attached st /\
  subscribed (fst (receive n st)) = subscribed st /\
  (attached st = false -> snd (receive n st) = []).
Proof.
  unfold receive, subscribed.
  destruct (routed n st) as [i |] eqn:Hr; [| repeat split].
  rewrite step_attached, step_subscribers.
  assert (Hnative : match i with
                    | Update _ | Destroy | Subscribe _ | Unsubscribe _ =>
                        False
                    | _ => True
                    end).
  { destruct n; simpl in Hr;
      try destruct (Nat.eqb host (element st)); inversion Hr; exact I. }
  destruct i; try contradiction; repeat split;
    intros Hoff; now apply detached_step.
Qed.

Lemma nth_error_deliver (n : Native) (h : list Composer.Client) (j : nat) :
  List.nth_error (fst (Composer.deliver n h)) j =
  option_map
    (fun c => {| Composer.tracker := fst (receive n (Composer.tracker c));
                 Composer.shares_init := Composer.shares_init c |})
    (List.nth_error h j).
Proof.
  revert j. induction h as [| c rest IH]; intros j; simpl.
  - now destruct j.
  - destruct (receive n (Composer.tracker c)) as [st out] eqn:Hr.
    destruct (Composer.deliver n rest) as [rest' out'] eqn:Hd.
    destruct j as [| j]; simpl; [now rewrite Hr |].
    specialize (IH j). simpl in IH. exact IH.
Qed.

Lemma composed_create (init : option Options.t) :
  composed (createPointer init).
Proof.
  unfold composed, createPointer, Composer.create. simpl.
  split; [| split; [| split; [| split; [| split]]]].
  - intros j cl H. destruct j; discriminate H.
  - discriminate.
  - discriminate.
  - discriminate.
  - discriminate.
  - apply NoDup_nil.
Qed.

Lemma mem_false (cb : nat) (s : CSet.t) :
  CSet.mem cb s = false <-> ~ In cb s.
Proof.
  rewrite <- mem_In. destruct (CSet.mem cb s); split; congruence.
Qed.

Lemma In_add (cb c : nat) (s : CSet.t) :
  In c (CSet.add cb s) <-> c = cb \/ In c s.
Proof.
  unfold CSet.add. destruct (CSet.mem cb s) eqn:Hmem.
  - apply mem_In in Hmem. split; [auto | intros [-> | H]; assumption].
  - rewrite in_app_iff. simpl. split.
    + intros [H | [<- | []]]; auto.
    + intros [-> | H]; auto.
Qed.

Lemma In_delete (cb c : nat) (s : CSet.t) :
  In c (CSet.delete cb s) <-> c <> cb /\ In c s.
Proof.
  unfold CSet.delete. rewrite filter_In, negb_true_iff, Nat.eqb_neq.
  split; intros [H1 H2]; split; auto.
Qed.

Lemma delete_absent (cb : nat) (s : CSet.t) :
  ~ In cb s -> CSet.delete cb s = s.
Proof.
  unfold CSet.delete. induction s as [| c rest IH]; simpl; intros Hnot;
    [reflexivity |].
  destruct (Nat.eqb_spec cb c) as [-> | Hne]; [tauto |].
  simpl. rewrite IH by tauto. reflexivity.
Qed.

(** A change of the heap that keeps, client by client, the listeners and
    the subscribers keeps the composer well formed. *)
Lemma composed_pointwise (c c' : Composer.t) :
  Composer.subscribers c' = Composer.subscribers c ->
  Composer.subscriptions c' = Composer.subscriptions c ->
  Composer.client c' = Composer.client c ->
  (forall j cl',
      List.nth_error (Composer.heap c') j = Some cl' ->
      exists cl,
        List.nth_error (Composer.heap c) j = Some cl /\
        attached (Composer.tracker cl') = attached (Composer.tracker cl) /\
        subscribed (Composer.tracker cl') = subscribed (Composer.tracker cl))
  ->
  (forall j cl,
      List.nth_error (Composer.heap c) j = Some cl ->
      exists cl', List.nth_error (Composer.heap c') j = Some cl') ->
  composed c -> composed c'.
Proof.
  intros Hs Hm Hc Hback Hforth (H1 & H2 & H3 & H4 & H5 & H6).
  unfold composed. rewrite Hs, Hm, Hc.
  split; [| split; [| split; [| split; [| split]]]]; try assumption.
  - intros j cl' Hnth Hnot.
    destruct (Hback j cl' Hnth) as (cl & Hnth0 & -> & ->).
    now apply (H1 j cl).
  - intros i Hi. destruct (H2 i Hi) as (cl & Hnth & Hsub).
    destruct (Hforth i cl Hnth) as (cl' & Hnth').
    exists cl'. split; [exact Hnth' |].
    destruct (Hback i cl' Hnth') as (cl0 & Hnth0 & _ & ->).
    congruence.
Qed.

Lemma composed_event (n : Native) (c : Composer.t) :
  composed c -> composed (fst (Composer.step c (Composer.Event n))).
Proof.
  unfold Composer.step.
  pose proof (nth_error_deliver n (Composer.heap c)) as Hnth.
  destruct (Composer.deliver n (Composer.heap c)) as [h out].
  simpl in Hnth. simpl fst. intros Hwf.
  apply (composed_pointwise c);
    [reflexivity | reflexivity | reflexivity | | | exact Hwf]; simpl.
  - intros j cl' Hj. rewrite Hnth in Hj.
    destruct (List.nth_error (Composer.heap c) j) as [cl |];
      [| discriminate].
    simpl in Hj. injection Hj as <-. exists cl. simpl.
    destruct (receive_keeps n (Composer.tracker cl)) as (Ha & Hs & _).
    auto.
  - intros j cl Hj. rewrite Hnth, Hj. simpl. eauto.
Qed.

Lemma composed_update (newOptions : option Options.t) (c : Composer.t) :
  composed c -> composed (Composer.update newOptions c).
Proof.
  unfold Composer.update.
  destruct (Composer.client c) as [i |] eqn:Hc; [| auto].
  destruct (Composer.current c) as [cl |] eqn:Hcur; [| auto].
  unfold Composer.current in Hcur. rewrite Hc in Hcur. rewrite <- Hc.
  set (updated := update newOptions (Composer.tracker cl)).
  assert (Hmod : forall j x,
             List.nth_error
               (Composer.modify i (fun _ => updated) (Composer.heap c)) j
             = Some x ->
             exists x0,
               List.nth_error (Composer.heap c) j = Some x0 /\
               attached (Composer.tracker x)
               = attached (Composer.tracker x0) /\
               subscribed (Composer.tracker x)
               = subscribed (Composer.tracker x0)).
  { intros j x Hj. rewrite nth_error_modify in Hj.
    destruct (Nat.eqb_spec j i) as [-> | Hne].
    - rewrite Hcur in Hj. simpl in Hj. injection Hj as <-.
      exists cl. simpl. auto.
    - exists x. auto. }
  intros Hwf.
  apply (composed_pointwise c);
    [reflexivity | reflexivity | reflexivity | | | exact Hwf]; simpl.
  - intros j x Hj. destruct (Composer.shares_init cl).
    + apply nth_error_write_init in Hj.
      destruct Hj as (x1 & Hj1 & Ha & Hs & _).
      destruct (Hmod j x1 Hj1) as (x0 & Hj0 & Ha0 & Hs0).
      exists x0. repeat split; congruence.
    + now apply Hmod.
  - intros j x Hj.
    assert (Hlt : (j < List.length (Composer.heap c))%nat).
    { apply nth_error_Some. congruence. }
    assert (Hsome : forall l : list Composer.Client,
               List.length l = List.length (Composer.heap c) ->
               exists x', List.nth_error l j = Some x').
    { intros l Hlen. destruct (List.nth_error l j) eqn:Hl; [eauto |].
      apply nth_error_None in Hl. lia. }
    destruct (Composer.shares_init cl); apply Hsome;
      rewrite ?length_write_init; apply length_modify.
Qed.

Lemma composed_destroy (c : Composer.t) :
  composed c -> composed (Composer.destroy c).
Proof.
  intros (H1 & H2 & H3 & H4 & H5 & H6).
  unfold composed, Composer.destroy. simpl.
  split; [| split; [| split; [| split; [| split]]]].
  - intros j cl Hj Hnot.
    destruct (Composer.client c) as [i |]; [| now apply (H1 j cl)].
    rewrite nth_error_modify in Hj.
    destruct (Nat.eqb_spec j i) as [-> | Hne]; [congruence |].
    now apply (H1 j cl).
  - intros i Hi. rewrite Hi. destruct (H2 i Hi) as (cl & Hnth & _).
    rewrite nth_error_modify, Nat.eqb_refl, Hnth. simpl.
    eexists. split; reflexivity.
  - discriminate.
  - intros i cb _ [].
  - discriminate.
  - apply NoDup_nil.
Qed.

Lemma composed_subscribe (cb : nat) (c : Composer.t) :
  composed c -> composed (Composer.subscribe cb c).
Proof.
  intros (H1 & H2 & H3 & H4 & H5 & H6).
  unfold composed, Composer.subscribe. simpl.
  destruct (Composer.client c) as [i |] eqn:Hc.
  - split; [| split; [| split; [| split; [| split]]]].
    + intros j cl Hj Hnot. rewrite nth_error_modify in Hj.
      destruct (Nat.eqb_spec j i) as [-> | Hne]; [congruence |].
      now apply (H1 j cl).
    + intros i' [= <-]. destruct (H2 i eq_refl) as (cl & Hnth & Hsub).
      rewrite nth_error_modify, Nat.eqb_refl, Hnth. simpl.
      eexists. split; [reflexivity |]. simpl.
      unfold subscribed in *. simpl. now rewrite Hsub.
    + intros c0 j. rewrite get_set.
      destruct (Nat.eqb cb c0); [congruence | apply H3].
    + intros i' c0 [= <-] Hin. rewrite get_set.
      destruct (Nat.eqb_spec cb c0) as [-> | Hne]; [reflexivity |].
      apply In_add in Hin. destruct Hin as [-> | Hin]; [contradiction |].
      now apply H4.
    + intros c0 j. rewrite get_set. rewrite In_add.
      destruct (Nat.eqb_spec cb c0) as [-> | Hne]; [auto |].
      intros Hg. right. now apply (H5 c0 j).
    + now apply add_NoDup.
  - split; [| split; [| split; [| split; [| split]]]];
      try discriminate.
    + intros j cl Hj _. apply (H1 j cl Hj). discriminate.
    + intros c0 j Hg. now apply H3 in Hg.
    + intros c0 j Hg. apply In_add. right. now apply (H5 c0 j).
    + now apply add_NoDup.
Qed.

Lemma composed_unsubscribe (cb : nat) (c : Composer.t) :
  composed c -> composed (Composer.unsubscribe cb c).
Proof.
  intros (H1 & H2 & H3 & H4 & H5 & H6).
  unfold composed, Composer.unsubscribe. simpl.
  split; [| split; [| split; [| split; [| split]]]].
  - intros j cl Hj Hnot.
    destruct (Composer.get cb (Composer.subscriptions c)) as [k |] eqn:Hg;
      [| now apply (H1 j cl)].
    apply H3 in Hg. rewrite nth_error_modify in Hj.
    destruct (Nat.eqb_spec j k) as [-> | Hne]; [congruence |].
    now apply (H1 j cl).
  - intros i Hi. destruct (H2 i Hi) as (cl & Hnth & Hsub).
    destruct (Composer.get cb (Composer.subscriptions c)) as [k |] eqn:Hg.
    + pose proof (H3 cb k Hg) as Hk. rewrite Hi in Hk.
      injection Hk as <-.
      rewrite nth_error_modify, Nat.eqb_refl, Hnth. simpl.
      eexists. split; [reflexivity |].
      unfold subscribed in *. simpl. now rewrite Hsub.
    + exists cl. split; [exact Hnth |]. rewrite Hsub.
      symmetry. apply delete_absent. intros Hin.
      rewrite (H4 i cb Hi Hin) in Hg. discriminate.
  - intros c0 j. rewrite get_delete.
    destruct (Nat.eqb cb c0); [discriminate | apply H3].
  - intros i c0 Hi Hin. apply In_delete in Hin. destruct Hin as [Hne Hin].
    rewrite get_delete.
    destruct (Nat.eqb_spec cb c0) as [-> | _]; [contradiction |].
    now apply H4.
  - intros c0 j. rewrite get_delete.
    destruct (Nat.eqb_spec cb c0) as [-> | Hne]; [discriminate |].
    intros Hg. apply In_delete. split; [congruence | now apply (H5 c0 j)].
  - unfold CSet.delete. now apply NoDup_filter.
Qed.

Lemma modify_last (f : Tracker -> Tracker) (l : list Composer.Client)
  (x : Composer.Client) :
  Composer.modify (List.length l) f (l ++ [x]) =
  l ++ [{| Composer.tracker := f (Composer.tracker x);
           Composer.shares_init := Composer.shares_init x |}].
Proof.
  induction l as [| y rest IH]; simpl; [reflexivity |]. now rewrite IH.
Qed.

Lemma capture_unfold (element : Element) (options : option Options.t)
  (c : Composer.t) :
  let destroyed :=
    match Composer.client c with
    | Some i => Composer.modify i destroy (Composer.heap c)
    | None => Composer.heap c
    end in
  let shared :=
    match options with
    | Some _ => false
    | None => defined (Composer.init c)
    end in
  let argument :=
    match options with
    | Some o => o
    | None => match Composer.init c with
              | Some o => o
              | None => Options.empty
              end
    end in
  let fresh := pointer element argument in
  let written :=
    if shared then Composer.write_init (options_of fresh) destroyed
    else destroyed in
  let i := List.length written in
  Composer.capture element options c =
  {| Composer.init :=
       if shared then Some (options_of fresh) else Composer.init c;
     Composer.subscribers := Composer.subscribers c;
     Composer.subscriptions :=
       List.fold_left (fun m cb => Composer.set cb i m)
         (Composer.subscribers c) (Composer.subscriptions c);
     Composer.heap :=
       written
       ++ [{| Composer.tracker :=
                List.fold_left (fun s cb => fst (subscribe cb s))
                  (Composer.subscribers c) fresh;
              Composer.shares_init := shared |}];
     Composer.client := Some i |}.
Proof.
  intros destroyed shared argument fresh written i.
  unfold Composer.capture. fold destroyed shared argument fresh written i.
  rewrite resubscribe_spec. subst i. rewrite modify_last. reflexivity.
Qed.

Lemma capture_old_clients (options : option Options.t) (fresh : Tracker)
  (shared : bool) (c : Composer.t) (j : nat) (cl : Composer.Client) :
  composed c ->
  let destroyed :=
    match Composer.client c with
    | Some i => Composer.modify i destroy (Composer.heap c)
    | None => Composer.heap c
    end in
  let written :=
    if shared then Composer.write_init (options_of fresh) destroyed
    else destroyed in
  List.nth_error written j = Some cl ->
  attached (Composer.tracker cl) = false /\
  subscribed (Composer.tracker cl) = [].
Proof.
  intros (H1 & _) destroyed written Hj.
  assert (Hd : forall x, List.nth_error destroyed j = Some x ->
                         attached (Composer.tracker x) = false /\
                         subscribed (Composer.tracker x) = []).
  { subst destroyed. intros x Hx.
    destruct (Composer.client c) as [i |] eqn:Hc.
    - rewrite nth_error_modify in Hx.
      destruct (Nat.eqb_spec j i) as [-> | Hne].
      + destruct (List.nth_error (Composer.heap c) i); [| discriminate].
        simpl in Hx. injection Hx as <-. split; reflexivity.
      + apply (H1 j x Hx). congruence.
    - apply (H1 j x Hx). discriminate. }
  subst written. destruct shared; [| now apply Hd].
  apply nth_error_write_init in Hj.
  destruct Hj as (x & Hx & -> & -> & _). now apply Hd.
Qed.

Lemma composed_capture (element : Element) (options : option Options.t)
  (c : Composer.t) :
  composed c -> composed (Composer.capture element options c).
Proof.
  intros Hwf. pose proof Hwf as (H1 & H2 & H3 & H4 & H5 & H6).
  rewrite capture_unfold. cbv zeta.
  set (fresh := pointer element _).
  set (shared := match options with Some _ => false | None => _ end).
  set (destroyed := match Composer.client c with
                    | Some i => _ | None => _ end).
  set (written := if shared then _ else destroyed).
  unfold composed. simpl.
  split; [| split; [| split; [| split; [| split]]]].
  - intros j cl Hj Hnot.
    destruct (Nat.lt_ge_cases j (List.length written)) as [Hlt | Hge].
    + rewrite nth_error_app1 in Hj by exact Hlt.
      exact (capture_old_clients options fresh shared c j cl Hwf Hj).
    + rewrite nth_error_app2 in Hj by exact Hge.
      destruct (j - List.length written)%nat as [| k] eqn:Hk.
      * exfalso. apply Hnot. f_equal. lia.
      * simpl in Hj. destruct k; discriminate Hj.
  - intros i [= <-].
    rewrite nth_error_app2, Nat.sub_diag by apply Nat.le_refl. simpl.
    eexists. split; [reflexivity |]. simpl.
    destruct (fold_subscribe_frame (Composer.subscribers c) fresh)
      as [_ Hs].
    simpl in Hs. rewrite Hs.
    rewrite fold_add_fresh; [reflexivity | exact H6 | intros cb _ []].
  - intros cb j. rewrite get_fold_set.
    destruct (CSet.mem cb (Composer.subscribers c)) eqn:Hmem;
      [congruence |].
    intros Hg. apply H5 in Hg. apply mem_false in Hmem. contradiction.
  - intros i cb [= <-] Hin. rewrite get_fold_set.
    apply mem_In in Hin. now rewrite Hin.
  - intros cb j. rewrite get_fold_set.
    destruct (CSet.mem cb (Composer.subscribers c)) eqn:Hmem.
    + intros _. now apply mem_In.
    + apply H5.
  - exact H6.
Qed.

Lemma composed_step (c : Composer.t) (i : Composer.Input) :
  composed c -> composed (fst (Composer.step c i)).
Proof.
  destruct i as [el o | o | | cb | cb | n].
  - apply composed_capture.
  - apply composed_update.
  - apply composed_destroy.
  - apply composed_subscribe.
  - apply composed_unsubscribe.
  - apply composed_event.
Qed.

Lemma composer_run_cons (c : Composer.t) (i : Composer.Input)
  (rest : list Composer.Input) :
  Composer.run c (i :: rest) =
  (fst (Composer.run (fst (Composer.step c i)) rest),
   snd (Composer.step c i)
   ++ snd (Composer.run (fst (Composer.step c i)) rest)).
Proof.
  simpl. destruct (Composer.step c i) as [c1 out1]. simpl.
  destruct (Composer.run c1 rest) as [c2 out2]. reflexivity.
Qed.

Lemma composed_run (inputs : list Composer.Input) (c : Composer.t) :
  composed c -> composed (fst (Composer.run c inputs)).
Proof.
  revert c. induction inputs as [| i rest IH]; intros c Hwf; [exact Hwf |].
  rewrite composer_run_cons. simpl fst. apply IH, composed_step, Hwf.
Qed.

Lemma step_callbacks (st : Tracker) (i : Input) :
  calls_within (subscribers st) (snd (step st i)).
Proof.
  unfold calls_within.
  destruct i as [e | e layout | e | e | e | e | o | | cb0 | cb0];
    unfold step, listen; try (intros cb ev []);
    destruct (attached st); try (intros cb ev []).
  - unfold start. destruct (Ev.isPrimary e); [| intros cb ev []].
    intros cb ev Hin. now apply dispatch_callback in Hin.
  - destruct (move_ignored e layout st) eqn:Hign.
    { rewrite (move_ignored_spec e layout st Hign). intros cb ev []. }
    rewrite (move_run e layout st Hign). simpl snd.
    set (located := move_locate _ _ _ st).
    intros cb ev Hin. apply in_app_iff in Hin. destruct Hin as [Hin | Hin].
    + revert Hin. unfold move_begin.
      destruct (Num.truthy (Ev.pressure e) && negb (tracking located)
                && isAcceptable e located); [| intros []].
      simpl snd. intros Hin. now apply dispatch_callback in Hin.
    + apply dispatch_callback in Hin.
      pose proof (f_equal subscribers
                    (move_derive_frame e (fst (move_begin e located))))
        as Hd.
      pose proof (f_equal subscribers (move_begin_frame e located)) as Hb.
      simpl in Hd, Hb. rewrite Hd, Hb in Hin. exact Hin.
  - destruct (defined (activeMode st) && tracking st) eqn:Hgo.
    + rewrite (end_tracked e st Hgo). simpl snd. intros cb ev Hin.
      apply in_app_iff in Hin.
      destruct Hin as [Hin | Hin]; now apply dispatch_callback in Hin.
    + rewrite (end_untracked e st Hgo).
      destruct (PMap.size (pointers (released e st)) =? 0)%nat;
        [| intros cb ev []].
      intros cb ev Hin. now apply dispatch_callback in Hin.
  - unfold leave.
    destruct (negb (defined (activeMode st)) || negb (Ev.isPrimary e)
              || negb (tracking st)); [intros cb ev [] |].
    intros cb ev Hin. now apply dispatch_callback in Hin.
  - unfold keydown.
    destruct (String.eqb (Ev.key e) "Escape" && defined (activeMode st)
              && tracking st);
      destruct (String.eqb (Ev.code e) "Space"); simpl;
      try (intros cb ev []);
      intros cb ev Hin; now apply dispatch_callback in Hin.
  - unfold keyup. destruct (String.eqb (Ev.code e) "Space");
      intros cb ev [].
Qed.

Lemma receive_callbacks (n : Native) (st : Tracker) :
  calls_within (subscribed st) (snd (receive n st)).
Proof.
  unfold receive. destruct (routed n st) as [i |].
  - apply step_callbacks.
  - intros cb ev [].
Qed.

Lemma deliver_emits (n : Native) (h : list Composer.Client)
  (cur : option nat) :
  (forall j cl,
      List.nth_error h j = Some cl -> cur <> Some j ->
      attached (Composer.tracker cl) = false) ->
  snd (Composer.deliver n h) =
  match cur with
  | Some i => match List.nth_error h i with
              | Some cl => snd (receive n (Composer.tracker cl))
              | None => []
              end
  | None => []
  end.
Proof.
  revert cur. induction h as [| c rest IH]; intros cur Hdead; simpl.
  - destruct cur as [[| i] |]; reflexivity.
  - destruct (receive n (Composer.tracker c)) as [st out] eqn:Hr.
    destruct (Composer.deliver n rest) as [rest' out'] eqn:Hd.
    simpl snd. simpl in IH.
    destruct cur as [[| i] |].
    + simpl nth_error. cbv iota beta. rewrite Hr. simpl snd.
      rewrite (IH None); [apply app_nil_r |].
      intros j cl Hj _. apply (Hdead (S j) cl Hj). discriminate.
    + assert (Hout : out = []).
      { destruct (receive_keeps n (Composer.tracker c)) as (_ & _ & Hoff).
        rewrite Hr in Hoff. apply Hoff.
        apply (Hdead O c eq_refl). discriminate. }
      rewrite Hout. simpl. apply (IH (Some i)).
      intros j cl Hj Hne. apply (Hdead (S j) cl Hj). congruence.
    + assert (Hout : out = []).
      { destruct (receive_keeps n (Composer.tracker c)) as (_ & _ & Hoff).
        rewrite Hr in Hoff. apply Hoff.
        apply (Hdead O c eq_refl). discriminate. }
      rewrite Hout. simpl. apply (IH None).
      intros j cl Hj _. apply (Hdead (S j) cl Hj). discriminate.
Qed.

(** X24.  Whatever sequence of captures, updates, subscriptions,
    unsubscriptions, destroys and native events a composer made by
    [createPointer] goes through: every client but the current one is
    destroyed and has no subscribers, the current client has exactly the
    subscribers of the composer, in the same order, and no callback is
    subscribed twice.  In particular a new capture carries every
    subscription over to the new client. *)
Theorem composer_keeps_subscriptions
  (init : option Options.t) (inputs : list Composer.Input) :
  composed (fst (Composer.run (createPointer init) inputs)).
Proof.
  apply composed_run, composed_create.
Qed.

(** X25.  On such a composer a native event is answered by the current
    client alone: what is dispatched is what the current client dispatches
    (nothing when there is none), and the only callbacks called are
    subscribers of the composer. *)
Theorem only_current_client_emits
  (init : option Options.t) (inputs : list Composer.Input) (n : Native) :
  let c := fst (Composer.run (createPointer init) inputs) in
  snd (Composer.step c (Composer.Event n)) = current_emits n c /\
  calls_within (Composer.subscribers c)
    (snd (Composer.step c (Composer.Event n))).
Proof.
  intros c.
  pose proof (composed_run inputs _ (composed_create init))
    as (H1 & H2 & _).
  fold c in H1, H2.
  assert (Hout : snd (Composer.step c (Composer.Event n))
                 = current_emits n c).
  { unfold Composer.step, current_emits, Composer.current.
    pose proof (deliver_emits n (Composer.heap c) (Composer.client c))
      as Hd.
    destruct (Composer.deliver n (Composer.heap c)) as [h out].
    simpl in *. rewrite Hd.
    - destruct (Composer.client c); reflexivity.
    - intros j cl Hj Hne. now apply (H1 j cl Hj). }
  split; [exact Hout |]. rewrite Hout.
  unfold current_emits, Composer.current.
  destruct (Composer.client c) as [i |] eqn:Hc; [| intros cb ev []].
  destruct (H2 i eq_refl) as (cl & Hnth & Hsub).
  rewrite Hnth, <- Hsub. apply receive_callbacks.
Qed.

(** X26.  The [init] object of a composer is shared with the clients
    created from it: an [update] through the composer is written to it, so
    the next capture without options of its own constructs its tracker from
    the updated options. *)
Theorem update_persists_through_init
  (o n : Options.t) (el el2 : Element) :
  let c :=
    fst (Composer.run (createPointer (Some o))
           [Composer.Capture el None; Composer.Update (Some n);
            Composer.Capture el2 None]) in
  let remembered := Options.assign (options (pointer el o)) (Some n) in
  option_map Composer.tracker (Composer.current c)
  = Some (pointer el2 remembered) /\
  Composer.init c = Some (options (pointer el2 remembered)).
Proof.
  split; reflexivity.
Qed.

Lemma composer_keeps_subscriptions_witness :
  let c :=
    fst (Composer.run (createPointer None)
           [Composer.Subscribe 5%nat; Composer.Capture 1%nat None;
            Composer.Subscribe 6%nat; Composer.Capture 2%nat None;
            Composer.Unsubscribe 5%nat]) in
  Composer.client c = Some 1%nat /\
  Composer.subscribers c = [6%nat] /\
  exists cl,
    List.nth_error (Composer.heap c) 1 = Some cl /\
    subscribed (Composer.tracker cl) = [6%nat].
Proof.
  intros c.
  destruct (composer_keeps_subscriptions None
              [Composer.Subscribe 5%nat; Composer.Capture 1%nat None;
               Composer.Subscribe 6%nat; Composer.Capture 2%nat None;
               Composer.Unsubscribe 5%nat]) as (_ & Hcur & _).
  split; [reflexivity |]. split; [reflexivity |].
  exact (Hcur 1%nat eq_refl).
Defined.
